(** * Expense tracker: the in-memory store and its REST handlers

    A shallow embedding of [server/storage.ts] (class [MemStorage]),
    [server/routes.ts] (the four Express handlers) and [shared/schema.ts]
    (the zod schema [insertExpenseSchema]), followed by the properties of the
    specification stated over it.

    Conventions.
    - A JavaScript string is the list of its UTF-16 code units.
    - A JavaScript number that holds an amount is an IEEE-754 binary64 value,
      kept exactly as sign, mantissa and binary exponent; [Number_toString]
      follows ECMAScript's Number::toString for radix 10.
    - Identifiers and time values are integers; they are kept as [Z].  The
      arithmetic JavaScript performs on them ([currentId++], the subtraction
      of two time values) is exact as long as the values stay below 2^53,
      which is the range this development speaks about.
    - [new Date()] reads the clock; the time value read is an explicit
      argument [now] of [createExpense].
    - [Map] keeps its entries in insertion order, which is the order
      [values()] walks them; it is an association list here. *)

From Stdlib Require Import ZArith List Bool Lia String Ascii Permutation Sorted.
Import ListNotations.
Open Scope Z_scope.

(** ** JavaScript strings *)

Definition code_unit := Z.
Definition jsstring := list code_unit.

(** A string literal of the source. *)
Definition lit (s : string) : jsstring :=
  map (fun a => Z.of_N (N_of_ascii a)) (list_ascii_of_string s).

(** [===] on two strings. *)
Fixpoint str_eqb (a b : jsstring) : bool :=
  match a, b with
  | [], [] => true
  | x :: a', y :: b' => (x =? y) && str_eqb a' b'
  | _, _ => false
  end.

(** [s.length] *)
Definition str_length (s : jsstring) : Z := Z.of_nat (List.length s).

(** ** JavaScript numbers *)

(** [Finite neg m e] is the real number (-1)^neg * m * 2^e. *)
Inductive Number :=
| NaN
| Infinity (neg : bool)
| Finite (neg : bool) (m : Z) (e : Z).

Module Double.

(** Mantissa and exponent brought to the binary64 layout: the mantissa in
    [2^52, 2^53) for a normal number, the exponent -1074 for a subnormal
    one. *)
Definition canon (m e : Z) : Z * Z :=
  let l := Z.log2 m in
  if l <? 52 then
    let d := Z.max 0 (Z.min (52 - l) (e + 1074)) in
    (Z.shiftl m d, e - d)
  else
    let d := l - 52 in
    (Z.shiftr m d, e + d).

(** [m * 2^e], [m > 0], is a value of the binary64 format. *)
Definition representable (m e : Z) : bool :=
  let '(mc, ec) := canon m e in
  (0 <? m) && (mc <? 2 ^ 53) && (-1074 <=? ec) && (ec <=? 971)
  && (if ec <=? e then mc =? m * 2 ^ (e - ec) else m =? mc * 2 ^ (ec - e)).

(** Compare [a * 10^p] with [b * 2^q]. *)
Definition cmp_scaled (a p b q : Z) : comparison :=
  (a * 10 ^ Z.max p 0 * 2 ^ Z.max (- q) 0)
  ?= (b * 2 ^ Z.max q 0 * 10 ^ Z.max (- p) 0).

(** The integer part of [b * 2^q / 10^p]. *)
Definition floor_scaled (b q p : Z) : Z :=
  (b * 2 ^ Z.max q 0 * 10 ^ Z.max (- p) 0)
  / (2 ^ Z.max (- q) 0 * 10 ^ Z.max p 0).

Fixpoint digits_fuel (fuel : nat) (n : Z) (acc : list Z) : list Z :=
  match fuel with
  | O => acc
  | S f =>
      if n <? 10 then n :: acc
      else digits_fuel f (n / 10) (n mod 10 :: acc)
  end.

(** The decimal digits of [n >= 0], most significant first. *)
Definition digits (n : Z) : list Z :=
  digits_fuel (S (Z.to_nat (Z.log2 n))) n [].

Fixpoint strip_zeros (fuel : nat) (s p : Z) : Z * Z :=
  match fuel with
  | O => (s, p)
  | S f =>
      if (0 <? s) && (s mod 10 =? 0) then strip_zeros f (s / 10) (p + 1)
      else (s, p)
  end.

Section Shortest.
(** The number is [x * 2^q]; a real rounds to it when it lies between
    [lo * 2^q] and [hi * 2^q], the bounds included when the mantissa is
    even (round to nearest, ties to even). *)
Variables (x q lo hi : Z) (incl : bool).
(** [10^(n-1) <= x * 2^q < 10^n]. *)
Variable n : Z.

Definition rounds_to (s p : Z) : bool :=
  match cmp_scaled s p lo q with
  | Lt => false
  | Eq => incl
  | Gt =>
      match cmp_scaled s p hi q with
      | Lt => true
      | Eq => incl
      | Gt => false
      end
  end.

(** Step 5 of Number::toString: the least [k] for which some [k]-digit
    [s] has [s * 10^(n-k)] rounding to the number; of two such [s] the
    one nearer to the number, the even one on a tie. *)
Fixpoint search (fuel : nat) (k : Z) : Z * Z :=
  let p := n - k in
  let s_lo := floor_scaled x q p in
  let s_hi := s_lo + 1 in
  match fuel with
  | O => (s_lo, p)
  | S f =>
      match rounds_to s_lo p, rounds_to s_hi p with
      | true, true =>
          match cmp_scaled (2 * s_lo + 1) p (2 * x) q with
          | Gt => (s_lo, p)
          | Lt => (s_hi, p)
          | Eq => if Z.even s_lo then (s_lo, p) else (s_hi, p)
          end
      | true, false => (s_lo, p)
      | false, true => (s_hi, p)
      | false, false => search f (k + 1)
      end
  end.
End Shortest.

(** The digits [s] and the decimal exponent [n] of step 5, for the
    positive number [m * 2^e]. *)
Definition shortest (m e : Z) : list Z * Z :=
  let '(mc, ec) := canon m e in
  let q := ec - 2 in
  let x := 4 * mc in
  let lo := if (mc =? 2 ^ 52) && (-1074 <? ec) then x - 1 else x - 2 in
  let hi := x + 2 in
  let n := Z.of_nat (List.length (digits (floor_scaled x q (-400)))) - 400 in
  let '(s, p) := search x q lo hi (Z.even mc) n 17 1 in
  let '(s, p) := strip_zeros 400 s p in
  let ds := digits s in
  (ds, p + Z.of_nat (List.length ds)).

End Double.

Definition digit_char (d : Z) : code_unit := 48 + d.

Definition zeros (n : Z) : jsstring := repeat 48 (Z.to_nat n).

(** Steps 6 to 10 of Number::toString for a positive finite number. *)
Definition format_decimal (ds : list Z) (n : Z) : jsstring :=
  let k := Z.of_nat (List.length ds) in
  let cs := map digit_char ds in
  if (-6 <? n) && (n <=? 21) then
    if k <=? n then cs ++ zeros (n - k)
    else if 0 <? n then
      firstn (Z.to_nat n) cs ++ lit "." ++ skipn (Z.to_nat n) cs
    else lit "0." ++ zeros (- n) ++ cs
  else
    let e := n - 1 in
    let sign := if e <? 0 then lit "-" else lit "+" in
    let es := map digit_char (Double.digits (Z.abs e)) in
    match cs with
    | [] => []
    | [c] => c :: lit "e" ++ sign ++ es
    | c :: rest => c :: lit "." ++ rest ++ lit "e" ++ sign ++ es
    end.

(** [x.toString()] *)
Definition Number_toString (x : Number) : jsstring :=
  match x with
  | NaN => lit "NaN"
  | Infinity neg => if neg then lit "-Infinity" else lit "Infinity"
  | Finite neg m e =>
      if m =? 0 then lit "0"
      else
        let '(ds, n) := Double.shortest m e in
        (if neg then lit "-" else []) ++ format_decimal ds n
  end.

(** [x > 0] *)
Definition Number_positive (x : Number) : bool :=
  match x with
  | NaN => false
  | Infinity neg => negb neg
  | Finite neg m _ => negb neg && (0 <? m)
  end.

(** [x] is a value a JavaScript number can hold. *)
Definition is_number (x : Number) : bool :=
  match x with
  | NaN | Infinity _ => true
  | Finite _ m e => (m =? 0) || Double.representable m e
  end.

(** ** [Map<number, V>] *)

Module JsMap.
Section Ops.
Context {V : Type}.

(** Entries in insertion order. *)
Definition t := list (Z * V).

(** [new Map()] *)
Definition empty : t := [].

(** [m.get(k)]; [None] is [undefined]. *)
Fixpoint get (k : Z) (m : t) : option V :=
  match m with
  | [] => None
  | (k', v) :: m' => if k' =? k then Some v else get k m'
  end.

(** [m.set(k, v)]: an existing key keeps its place, a new one goes
    last. *)
Fixpoint set (k : Z) (v : V) (m : t) : t :=
  match m with
  | [] => [(k, v)]
  | (k', v') :: m' =>
      if k' =? k then (k', v) :: m' else (k', v') :: set k v m'
  end.

(** [m.delete(k)]: the map without the entry, and whether there was
    one. *)
Fixpoint delete (k : Z) (m : t) : t * bool :=
  match m with
  | [] => ([], false)
  | (k', v) :: m' =>
      if k' =? k then (m', true)
      else let '(r, b) := delete k m' in ((k', v) :: r, b)
  end.

(** [Array.from(m.values())] *)
Definition values (m : t) : list V := map snd m.

Definition keys (m : t) : list Z := map fst m.
End Ops.
Arguments t : clear implicits.
End JsMap.

(** ** [Array.prototype.sort] and [filter] *)

Section ArraySort.
Context {A : Type}.
(** The comparator: negative when its first argument goes first. *)
Variable cmp : A -> A -> Z.

(** [x], which stood before every element of [l], goes before the first
    one that does not have to precede it. *)
Fixpoint insert (x : A) (l : list A) : list A :=
  match l with
  | [] => [x]
  | y :: l' => if cmp x y <=? 0 then x :: l else y :: insert x l'
  end.

(** [l.sort(cmp)].  The sort is stable, so its result does not depend on
    the algorithm of the engine; it is computed by insertion here. *)
Fixpoint Array_sort (l : list A) : list A :=
  match l with
  | [] => []
  | x :: l' => insert x (Array_sort l')
  end.
End ArraySort.

(** ** shared/schema.ts *)

(** [InsertExpense]: what [insertExpenseSchema] infers. *)
Record InsertExpense := mkInsertExpense {
  ins_amount : Number;
  ins_description : jsstring;
  ins_category : jsstring
}.

(** [Expense]: a row of the [expenses] table.  [createdAt] is the time value
    of the [Date], in milliseconds. *)
Record Expense := mkExpense {
  id : Z;
  amount : jsstring;
  description : jsstring;
  category : jsstring;
  createdAt : Z
}.

(** The members of [z.enum([...])]. *)
Definition categories : list jsstring :=
  [lit "food"; lit "transport"; lit "shopping"; lit "entertainment";
   lit "utilities"; lit "healthcare"; lit "education"; lit "others"].

(** A value a request body or one of its fields can hold. *)
#[local] Unset Elimination Schemes.
Inductive value :=
| VUndefined
| VNull
| VBool (b : bool)
| VNumber (x : Number)
| VString (s : jsstring)
| VArray (items : list value)
| VObject (fields : list (jsstring * value)).
#[local] Set Elimination Schemes.

(** [obj[key]] *)
Fixpoint get_field (key : jsstring) (fields : list (jsstring * value)) : value :=
  match fields with
  | [] => VUndefined
  | (k, v) :: rest => if str_eqb k key then v else get_field key rest
  end.

Inductive ZodIssueCode := invalid_type | too_small | too_big | invalid_enum_value.

(** An entry of [ZodError.errors].  [message] is [Some] text where the schema
    gives one and [None] where zod supplies its default wording. *)
Record ZodIssue := mkIssue {
  code : ZodIssueCode;
  path : list jsstring;
  message : option jsstring
}.

(** [z.number().positive("Amount must be positive")] at key [amount]. *)
Definition parse_amount (v : value) : Number + list ZodIssue :=
  match v with
  | VNumber NaN => inr [mkIssue invalid_type [lit "amount"] None]
  | VNumber x =>
      if Number_positive x then inl x
      else inr [mkIssue too_small [lit "amount"] (Some (lit "Amount must be positive"))]
  | _ => inr [mkIssue invalid_type [lit "amount"] None]
  end.

(** [z.string().min(1, "Description is required").max(100, "Description too
    long")] at key [description]. *)
Definition parse_description (v : value) : jsstring + list ZodIssue :=
  match v with
  | VString s =>
      let small :=
        if str_length s <? 1
        then [mkIssue too_small [lit "description"] (Some (lit "Description is required"))]
        else [] in
      let big :=
        if 100 <? str_length s
        then [mkIssue too_big [lit "description"] (Some (lit "Description too long"))]
        else [] in
      match small ++ big with
      | [] => inl s
      | issues => inr issues
      end
  | _ => inr [mkIssue invalid_type [lit "description"] None]
  end.

(** [z.enum([...], { required_error: "Category is required" })] at key
    [category]. *)
Definition parse_category (v : value) : jsstring + list ZodIssue :=
  match v with
  | VString s =>
      if existsb (str_eqb s) categories then inl s
      else inr [mkIssue invalid_enum_value [lit "category"] None]
  | VUndefined =>
      inr [mkIssue invalid_type [lit "category"] (Some (lit "Category is required"))]
  | _ => inr [mkIssue invalid_type [lit "category"] None]
  end.

Definition issues_of {A : Type} (r : A + list ZodIssue) : list ZodIssue :=
  match r with
  | inl _ => []
  | inr issues => issues
  end.

(** [insertExpenseSchema.parse(body)]: the validated data, or the issues of
    the [ZodError] it throws.  The keys are checked in the order of the
    shape, and every failing key reports. *)
Definition insertExpenseSchema_parse (body : value) : InsertExpense + list ZodIssue :=
  match body with
  | VObject fields =>
      let a := parse_amount (get_field (lit "amount") fields) in
      let d := parse_description (get_field (lit "description") fields) in
      let c := parse_category (get_field (lit "category") fields) in
      match a, d, c with
      | inl x, inl s, inl k => inl (mkInsertExpense x s k)
      | _, _, _ => inr (issues_of a ++ issues_of d ++ issues_of c)
      end
  | _ => inr [mkIssue invalid_type [] None]
  end.

(** ** server/storage.ts *)

Record MemStorage := mkMemStorage {
  expenses : JsMap.t Expense;
  currentId : Z
}.

(** [constructor()] *)
Definition MemStorage_new : MemStorage :=
  {| expenses := JsMap.empty; currentId := 1 |}.

(** [(a, b) => new Date(b.createdAt).getTime() - new Date(a.createdAt).getTime()] *)
Definition by_createdAt_desc (a b : Expense) : Z := createdAt b - createdAt a.

Definition getExpenses (s : MemStorage) : list Expense :=
  Array_sort by_createdAt_desc (JsMap.values (expenses s)).

Definition getExpense (s : MemStorage) (i : Z) : option Expense :=
  JsMap.get i (expenses s).

Definition createExpense (s : MemStorage) (insertExpense : InsertExpense) (now : Z)
  : MemStorage * Expense :=
  let i := currentId s in
  let expense :=
    {| id := i;
       amount := Number_toString (ins_amount insertExpense);
       description := ins_description insertExpense;
       category := ins_category insertExpense;
       createdAt := now |} in
  ({| expenses := JsMap.set i expense (expenses s); currentId := i + 1 |}, expense).

Definition deleteExpense (s : MemStorage) (i : Z) : MemStorage * bool :=
  let '(m, deleted) := JsMap.delete i (expenses s) in
  ({| expenses := m; currentId := currentId s |}, deleted).

Definition getExpensesByCategory (s : MemStorage) (c : jsstring) : list Expense :=
  Array_sort by_createdAt_desc
    (filter (fun expense => str_eqb (category expense) c) (JsMap.values (expenses s))).

(** ** [parseInt] *)

(** WhiteSpace and LineTerminator code units, which [parseInt] skips at the
    start of its argument. *)
Definition is_white_space (c : code_unit) : bool :=
  existsb (Z.eqb c)
    [9; 10; 11; 12; 13; 32; 160; 5760; 8232; 8233; 8239; 8287; 12288; 65279]
  || ((8192 <=? c) && (c <=? 8202)).

Fixpoint trim_start (s : jsstring) : jsstring :=
  match s with
  | c :: s' => if is_white_space c then trim_start s' else s
  | [] => []
  end.

(** The value of [c] as a digit of radix [r], if it is one. *)
Definition digit_value (r : Z) (c : code_unit) : option Z :=
  let d :=
    if (48 <=? c) && (c <=? 57) then c - 48
    else if (97 <=? c) && (c <=? 122) then c - 87
    else if (65 <=? c) && (c <=? 90) then c - 55
    else r in
  if d <? r then Some d else None.

(** The integer the leading radix-[r] digits of [s] denote, after [acc];
    [seen] tells whether a digit was read. *)
Fixpoint read_digits (r : Z) (s : jsstring) (acc : Z) (seen : bool) : option Z :=
  match s with
  | [] => if seen then Some acc else None
  | c :: s' =>
      match digit_value r c with
      | Some d => read_digits r s' (acc * r + d) true
      | None => if seen then Some acc else None
      end
  end.

(** The sign a leading [-] or [+] gives, and what follows it. *)
Definition split_sign (s : jsstring) : Z * jsstring :=
  match s with
  | c :: r => if c =? 45 then (-1, r) else if c =? 43 then (1, r) else (1, s)
  | [] => (1, s)
  end.

(** Radix 16 after a leading [0x] or [0X], radix 10 otherwise. *)
Definition split_radix (s : jsstring) : Z * jsstring :=
  match s with
  | c1 :: c2 :: r =>
      if (c1 =? 48) && ((c2 =? 120) || (c2 =? 88)) then (16, r) else (10, s)
  | _ => (10, s)
  end.

(** [parseInt(s)] with no radix; [None] is [NaN].  The result is the integer
    the digits denote; JavaScript returns the number nearest to it, which is
    that integer up to 2^53 and, beyond, a number that is no id of the
    store either. *)
Definition parseInt (s : jsstring) : option Z :=
  let '(sign, s2) := split_sign (trim_start s) in
  let '(radix, s3) := split_radix s2 in
  match read_digits radix s3 0 false with
  | Some n => Some (sign * n)
  | None => None
  end.

(** ** server/routes.ts

    A handler takes the store and what it reads of the request, and gives
    the store it leaves and the response.  [insertExpenseSchema.parse] is
    the only call in a handler that throws, and what it throws is a
    [ZodError]; the [catch] branches that answer 500 are never entered and
    have no counterpart here. *)

(** What [res.json] is given. *)
Inductive Body :=
| ExpenseList (l : list Expense)
| OneExpense (e : Expense)
| Message (text : jsstring)
| ValidationFailure (text : jsstring) (errors : list ZodIssue).

Record Response := mkResponse {
  status : Z;
  body : Body
}.

(** [req.query.category] as Express parses it. *)
#[local] Unset Elimination Schemes.
Inductive QueryValue :=
| QUndefined
| QString (s : jsstring)
| QArray (items : list QueryValue)
| QObject (fields : list (jsstring * QueryValue)).
#[local] Set Elimination Schemes.

(** [category && typeof category === 'string'] *)
Definition category_given (category : QueryValue) : option jsstring :=
  match category with
  | QString [] => None
  | QString c => Some c
  | _ => None
  end.

(** [app.get("/api/expenses", ...)] *)
Definition get_expenses (s : MemStorage) (category : QueryValue) : Response :=
  match category_given category with
  | Some c => mkResponse 200 (ExpenseList (getExpensesByCategory s c))
  | None => mkResponse 200 (ExpenseList (getExpenses s))
  end.

(** [app.post("/api/expenses", ...)] *)
Definition post_expenses (s : MemStorage) (req_body : value) (now : Z)
  : MemStorage * Response :=
  match insertExpenseSchema_parse req_body with
  | inl validatedData =>
      let '(s', expense) := createExpense s validatedData now in
      (s', mkResponse 201 (OneExpense expense))
  | inr errors =>
      (s, mkResponse 400 (ValidationFailure (lit "Validation error") errors))
  end.

(** [app.delete("/api/expenses/:id", ...)] *)
Definition delete_expense (s : MemStorage) (param_id : jsstring)
  : MemStorage * Response :=
  match parseInt param_id with
  | None => (s, mkResponse 400 (Message (lit "Invalid expense ID")))
  | Some i =>
      let '(s', deleted) := deleteExpense s i in
      if negb deleted then (s', mkResponse 404 (Message (lit "Expense not found")))
      else (s', mkResponse 200 (Message (lit "Expense deleted successfully")))
  end.

(** [app.get("/api/expenses/:id", ...)] *)
Definition get_expense (s : MemStorage) (param_id : jsstring) : Response :=
  match parseInt param_id with
  | None => mkResponse 400 (Message (lit "Invalid expense ID"))
  | Some i =>
      match getExpense s i with
      | None => mkResponse 404 (Message (lit "Expense not found"))
      | Some expense => mkResponse 200 (OneExpense expense)
      end
  end.

(** * Vocabulary of the specification

    The notions the properties below are stated with, and the data of
    their examples. *)

(** The conditions of the schema on a payload: a positive amount, a
    description of 1 to 100 code units, a category of the enum. *)
Definition valid_payload (i : InsertExpense) : bool :=
  Number_positive (ins_amount i)
  && (1 <=? str_length (ins_description i))
  && (str_length (ins_description i) <=? 100)
  && existsb (str_eqb (ins_category i)) categories.

(** The payload [{amount: 250.50, description: "Lunch", category: "food"}];
    250.5 is 501 * 2^-1. *)
Definition lunch : InsertExpense :=
  mkInsertExpense (Finite false 501 (-1)) (lit "Lunch") (lit "food").

(** The store after one [create], of [lunch]. *)
Definition one_lunch : MemStorage :=
  fst (createExpense MemStorage_new lunch 1700000000000).

(** A call that changes the store. *)
Inductive Op :=
| Create (input : InsertExpense) (now : Z)
| Delete (i : Z).

(** The store after the calls, and the ids the [create] calls assigned, in
    the order of the calls. *)
Fixpoint run (ops : list Op) (s : MemStorage) : MemStorage * list Z :=
  match ops with
  | [] => (s, [])
  | Create input now :: rest =>
      let '(s1, e) := createExpense s input now in
      let '(s2, ids) := run rest s1 in
      (s2, id e :: ids)
  | Delete i :: rest => run rest (fst (deleteExpense s i))
  end.

(** [o] is a [create] call. *)
Definition is_create (o : Op) : bool :=
  match o with Create _ _ => true | Delete _ => false end.

(** The number of [create] calls among [ops]. *)
Definition creates (ops : list Op) : nat := List.length (filter is_create ops).

(** The [n] integers from [a] on. *)
Definition Zseq (a : Z) (n : nat) : list Z :=
  map (fun k => a + Z.of_nat k) (seq 0 n).

(** The states the store goes through: the initial one, and those its
    [createExpense] and [deleteExpense] lead to. *)
Inductive reachable : MemStorage -> Prop :=
| reach_new : reachable MemStorage_new
| reach_create s input now :
    reachable s -> reachable (fst (createExpense s input now))
| reach_delete s i :
    reachable s -> reachable (fst (deleteExpense s i)).

(** [c] is one of [0] to [9]. *)
Definition is_decimal_digit (c : code_unit) : bool := (48 <=? c) && (c <=? 57).

(** A decimal written with exactly two decimal places: an integer part, a
    point, two digits. *)
Definition two_decimal_places (s : jsstring) : bool :=
  match rev s with
  | d2 :: d1 :: point :: integer_part =>
      is_decimal_digit d2 && is_decimal_digit d1 && (point =? 46)
      && negb (str_length integer_part =? 0)
      && forallb is_decimal_digit integer_part
  | _ => false
  end.

(** The body [{amount: 250.50, description: "Lunch", category: "food"}]. *)
Definition lunch_body : value :=
  VObject [(lit "amount", VNumber (Finite false 501 (-1)));
           (lit "description", VString (lit "Lunch"));
           (lit "category", VString (lit "food"))].

(** A body that breaks the schema in one of the ways the specification
    names: the amount is zero or negative, the description is empty or
    longer than 100, the category is not in the enum. *)
Definition fails_schema (fields : list (jsstring * value)) : Prop :=
  (exists x, get_field (lit "amount") fields = VNumber x
             /\ Number_positive x = false)
  \/ (exists d, get_field (lit "description") fields = VString d
                /\ (d = [] \/ 100 < str_length d))
  \/ (exists c, get_field (lit "category") fields = VString c
                /\ ~ In c categories).

(** An issue that names one field of the payload. *)
Definition field_level (e : ZodIssue) : Prop :=
  path e = [lit "amount"] \/ path e = [lit "description"]
  \/ path e = [lit "category"].

(** The fields of [{amount: 0, description: "Lunch", category: "travel"}]. *)
Definition free_lunch_fields : list (jsstring * value) :=
  [(lit "amount", VNumber (Finite false 0 0));
   (lit "description", VString (lit "Lunch"));
   (lit "category", VString (lit "travel"))].

(** A valid integer, in the words of the specification: an optional sign
    and then decimal digits, at least one, and nothing else. *)
Definition unsigned_decimal (s : jsstring) : bool :=
  match s with
  | [] => false
  | _ => forallb is_decimal_digit s
  end.

Definition valid_integer (p : jsstring) : bool :=
  match p with
  | c :: r =>
      if (c =? 45) || (c =? 43) then unsigned_decimal r else unsigned_decimal p
  | [] => false
  end.

(** The integer that decimal digits, and a valid integer, denote. *)
Definition decimal_value (s : jsstring) : Z :=
  fold_left (fun acc c => acc * 10 + (c - 48)) s 0.

Definition integer_value (p : jsstring) : Z :=
  match p with
  | c :: r =>
      if c =? 45 then - decimal_value r
      else if c =? 43 then decimal_value r
      else decimal_value p
  | [] => 0
  end.

(** The digits of a valid integer, without its sign. *)
Definition unsigned_part (v : jsstring) : jsstring :=
  match v with
  | c :: r => if (c =? 45) || (c =? 43) then r else v
  | [] => []
  end.

(** [r] is empty or begins with something else than a decimal digit. *)
Definition halts_decimal (r : jsstring) : bool :=
  match r with
  | [] => true
  | c :: _ => negb (is_decimal_digit c)
  end.

(** What may follow a valid integer [v] without changing how it is read:
    nothing, or characters that do not begin with a decimal digit nor, when
    the digits of [v] are the single digit [0], with [x] or [X]. *)
Definition ignorable_tail (v r : jsstring) : bool :=
  match r with
  | [] => true
  | c :: _ =>
      negb (is_decimal_digit c)
      && negb (str_eqb (unsigned_part v) [48] && ((c =? 120) || (c =? 88)))
  end.

(** The parameter holds no integer to read: after leading white space, an
    optional sign and an optional [0x] or [0X], it does not go on with a
    digit (a decimal one, or a hexadecimal one after the prefix). *)
Definition lacks_integer (p : jsstring) : bool :=
  let '(_, s2) := split_sign (trim_start p) in
  let '(radix, s3) := split_radix s2 in
  match s3 with
  | [] => true
  | c :: _ =>
      match digit_value radix c with
      | Some _ => false
      | None => true
      end
  end.

(** The conditions of the schema on each key of the body. *)
Definition amount_ok (v : value) : bool :=
  match v with
  | VNumber x => Number_positive x
  | _ => false
  end.

Definition description_ok (v : value) : bool :=
  match v with
  | VString d => (1 <=? str_length d) && (str_length d <=? 100)
  | _ => false
  end.

Definition category_ok (v : value) : bool :=
  match v with
  | VString c => existsb (str_eqb c) categories
  | _ => false
  end.

(** ** Invariants of the store *)

(** What the store keeps true of its state: the counter is at least 1; the
    keys of the map grow along its insertion order; every record sits under
    its own id, an id the counter has passed. *)
Definition store_inv (s : MemStorage) : Prop :=
  1 <= currentId s
  /\ StronglySorted Z.lt (JsMap.keys (expenses s))
  /\ Forall (fun kv => id (snd kv) = fst kv /\ 1 <= fst kv < currentId s)
       (expenses s).

(** The order of [list()]: the later [createdAt] first and, of two records
    with the same [createdAt], the one with the smaller id first. *)
Definition listed_before (a b : Expense) : Prop :=
  createdAt b < createdAt a \/ (createdAt a = createdAt b /\ id a < id b).

(** The states the store goes through when only the handlers of
    [registerRoutes] touch it. *)
Inductive served : MemStorage -> Prop :=
| served_new : served MemStorage_new
| served_post s req_body now :
    served s -> served (fst (post_expenses s req_body now))
| served_delete s param_id :
    served s -> served (fst (delete_expense s param_id)).

(** A record as the schema lets it in: a category of the enum, a
    description of 1 to 100 code units, the text of a positive number as
    amount. *)
Definition well_formed (e : Expense) : Prop :=
  In (category e) categories
  /\ 1 <= str_length (description e) <= 100
  /\ exists x, Number_positive x = true /\ amount e = Number_toString x.

(** [expense => expense.category === category], the test of the filter. *)
Definition in_category (c : jsstring) (e : Expense) : bool :=
  str_eqb (category e) c.

(** * Properties *)

(** ** Numbers and their decimal text *)

(** 0.1, 0.1 + 0.2, 2^69, 2^70, the least and the greatest positive number,
    as JavaScript prints them. *)
Example toString_known_values :
  map Number_toString
    [Finite false 3602879701896397 (-55);
     Finite false 1351079888211149 (-52);
     Finite false 1 69; Finite false 1 70;
     Finite false 1 (-1074); Finite false (2 ^ 53 - 1) 971;
     Finite true 25 0; Finite true 0 0; Finite false 5 0]
  = [lit "0.1"; lit "0.30000000000000004";
     lit "590295810358705700000"; lit "1.1805916207174113e+21";
     lit "5e-324"; lit "1.7976931348623157e+308";
     lit "-25"; lit "0"; lit "5"].
Proof. vm_compute; reflexivity. Qed.

Example parseInt_known_values :
  map parseInt
    [lit "12"; lit "1abc"; lit " -42"; lit "0x1F"; lit "1.5"; lit "+7";
     lit "abc"; lit ""; lit "-"; lit "0x"]
  = [Some 12; Some 1; Some (-42); Some 31; Some 1; Some 7;
     None; None; None; None].
Proof. vm_compute; reflexivity. Qed.

(** ** Strings *)

Lemma str_eqb_eq (a b : jsstring) : str_eqb a b = true <-> a = b.
Proof.
  revert b; induction a as [|x a IH]; intros [|y b]; simpl;
    try (split; [discriminate | congruence]); [tauto|].
  rewrite andb_true_iff, Z.eqb_eq, IH.
  split; [intros [-> ->]; reflexivity | intros E; inversion E; auto].
Qed.

Lemma str_eqb_refl (a : jsstring) : str_eqb a a = true.
Proof. apply str_eqb_eq; reflexivity. Qed.

Lemma str_eqb_neq (a b : jsstring) : str_eqb a b = false <-> a <> b.
Proof.
  rewrite <- str_eqb_eq. destruct (str_eqb a b); split; congruence.
Qed.

(** ** The map *)

Module JsMapFacts.
Import JsMap.
Section Facts.
Context {V : Type}.
Implicit Types (m : JsMap.t V) (k : Z) (v : V).

Lemma get_set_same k v m : get k (set k v m) = Some v.
Proof.
  induction m as [|[k' v'] m IH]; simpl.
  - rewrite Z.eqb_refl; reflexivity.
  - destruct (k' =? k) eqn:E; simpl; rewrite E; auto.
Qed.

Lemma get_none_not_key k m : get k m = None <-> ~ In k (keys m).
Proof.
  induction m as [|[k' v'] m IH]; simpl; [tauto|].
  destruct (k' =? k) eqn:E.
  - apply Z.eqb_eq in E. split; [discriminate | tauto].
  - apply Z.eqb_neq in E. rewrite IH. tauto.
Qed.

Lemma set_fresh k v m : get k m = None -> set k v m = m ++ [(k, v)].
Proof.
  induction m as [|[k' v'] m IH]; simpl; [reflexivity|].
  destruct (k' =? k); [discriminate|].
  intros H; rewrite IH by assumption; reflexivity.
Qed.

Lemma delete_absent k m : get k m = None -> delete k m = (m, false).
Proof.
  induction m as [|[k' v'] m IH]; simpl; [reflexivity|].
  destruct (k' =? k); [discriminate|].
  intros H; rewrite IH by assumption; reflexivity.
Qed.

Lemma delete_present k m :
  get k m <> None ->
  snd (delete k m) = true
  /\ S (List.length (fst (delete k m))) = List.length m.
Proof.
  induction m as [|[k' v'] m IH]; simpl; [congruence|].
  destruct (k' =? k); [auto|].
  intros H; destruct (IH H) as [Hb Hl].
  destruct (delete k m) as [r b]; simpl in *; auto.
Qed.

Lemma delete_flag k m : snd (delete k m) = true <-> get k m <> None.
Proof.
  split.
  - intros Hd Hg. rewrite (delete_absent _ _ Hg) in Hd. discriminate.
  - intros H; apply delete_present; assumption.
Qed.

Lemma delete_keys_incl k m : incl (keys (fst (delete k m))) (keys m).
Proof.
  induction m as [|[k' v'] m IH]; simpl; [apply incl_refl|].
  destruct (k' =? k); simpl.
  - apply incl_tl, incl_refl.
  - destruct (delete k m) as [r b]; simpl in *.
    apply incl_cons; [left; reflexivity | apply incl_tl; assumption].
Qed.
End Facts.
End JsMapFacts.

(** ** The sort *)

Section SortFacts.
Context {A : Type}.
Variable cmp : A -> A -> Z.

Lemma insert_perm x l : Permutation (insert cmp x l) (x :: l).
Proof.
  induction l as [|y l IH]; simpl; [reflexivity|].
  destruct (cmp x y <=? 0); [reflexivity|].
  rewrite IH. apply perm_swap.
Qed.

Lemma Array_sort_perm l : Permutation (Array_sort cmp l) l.
Proof.
  induction l as [|x l IH]; simpl; [constructor|].
  rewrite insert_perm. constructor; assumption.
Qed.

Lemma Array_sort_length l : List.length (Array_sort cmp l) = List.length l.
Proof. apply Permutation_length, Array_sort_perm. Qed.

Lemma insert_front x l :
  Forall (fun y => cmp x y <= 0) l -> insert cmp x l = x :: l.
Proof.
  intros H; destruct H as [|y l Hy _]; simpl; [reflexivity|].
  apply Z.leb_le in Hy; rewrite Hy; reflexivity.
Qed.

(** The comparator orders its arguments: it is transitive, and of two
    elements one does not have to follow the other. *)
Hypothesis cmp_trans : forall a b c, cmp a b <= 0 -> cmp b c <= 0 -> cmp a c <= 0.
Hypothesis cmp_total : forall a b, 0 < cmp a b -> cmp b a <= 0.

Let before (a b : A) : Prop := cmp a b <= 0.

Lemma insert_sorted x l :
  StronglySorted before l -> StronglySorted before (insert cmp x l).
Proof.
  induction 1 as [|y l Hs IH Hall]; simpl.
  - repeat constructor.
  - destruct (cmp x y <=? 0) eqn:E.
    + apply Z.leb_le in E.
      constructor; [constructor; assumption|].
      constructor; [exact E|].
      eapply Forall_impl; [|exact Hall].
      intros z Hz; exact (cmp_trans _ _ _ E Hz).
    + apply Z.leb_gt in E.
      constructor; [assumption|].
      rewrite (insert_perm x l).
      constructor; [apply cmp_total; assumption | assumption].
Qed.

Lemma Array_sort_sorted l : StronglySorted before (Array_sort cmp l).
Proof.
  induction l as [|x l IH]; simpl; [constructor | apply insert_sorted, IH].
Qed.

(** Filtering commutes with the insertion into a sorted array. *)
Lemma filter_insert (p : A -> bool) x l :
  StronglySorted before l ->
  filter p (insert cmp x l)
  = if p x then insert cmp x (filter p l) else filter p l.
Proof.
  induction 1 as [|y l Hs IH Hall]; simpl.
  - destruct (p x); reflexivity.
  - destruct (cmp x y <=? 0) eqn:E; simpl.
    + destruct (p x) eqn:Px; [|reflexivity].
      destruct (p y) eqn:Py; simpl; [rewrite E; reflexivity|].
      symmetry; apply insert_front.
      apply Z.leb_le in E.
      apply Forall_forall; intros z Hz.
      apply filter_In in Hz as [Hz _].
      rewrite Forall_forall in Hall.
      exact (cmp_trans _ _ _ E (Hall z Hz)).
    + rewrite IH.
      destruct (p x) eqn:Px; destruct (p y) eqn:Py; simpl;
        rewrite ?E; reflexivity.
Qed.

(** Sorting the filtered array is filtering the sorted one. *)
Lemma Array_sort_filter (p : A -> bool) l :
  Array_sort cmp (filter p l) = filter p (Array_sort cmp l).
Proof.
  induction l as [|x l IH]; simpl; [reflexivity|].
  rewrite filter_insert by apply Array_sort_sorted.
  destruct (p x); simpl; rewrite IH; reflexivity.
Qed.
End SortFacts.

Lemma by_createdAt_desc_trans a b c :
  by_createdAt_desc a b <= 0 -> by_createdAt_desc b c <= 0 ->
  by_createdAt_desc a c <= 0.
Proof. unfold by_createdAt_desc; lia. Qed.

Lemma by_createdAt_desc_total a b :
  0 < by_createdAt_desc a b -> by_createdAt_desc b a <= 0.
Proof. unfold by_createdAt_desc; lia. Qed.

(** ** Valid payloads *)

(** What [insertExpenseSchema.parse] returns is a valid payload. *)
Lemma parse_valid_payload body i :
  insertExpenseSchema_parse body = inl i -> valid_payload i = true.
Proof.
  destruct body as [| | | |?|?|fields]; try discriminate.
  unfold insertExpenseSchema_parse.
  destruct (parse_amount _) as [x|ea] eqn:Ha;
    destruct (parse_description _) as [d|ed] eqn:Hd;
    destruct (parse_category _) as [c|ec] eqn:Hc; try discriminate.
  intros E; injection E as <-.
  unfold valid_payload; cbn [ins_amount ins_description ins_category].
  assert (Hx : Number_positive x = true).
  { unfold parse_amount in Ha.
    destruct (get_field (lit "amount") fields) as [| | |y| | |];
      try discriminate.
    destruct y; try discriminate;
      match type of Ha with
      | (if ?b then _ else _) = _ => destruct b eqn:P; [|discriminate]
      end; injection Ha as <-; exact P. }
  assert (Hl : (1 <=? str_length d) && (str_length d <=? 100) = true).
  { unfold parse_description in Hd.
    destruct (get_field (lit "description") fields) as [| | | |t| |];
      try discriminate.
    destruct (str_length t <? 1) eqn:L1; [discriminate|].
    destruct (100 <? str_length t) eqn:L2; [discriminate|].
    simpl in Hd; injection Hd as <-.
    apply Z.ltb_ge in L1, L2.
    apply andb_true_iff; split; apply Z.leb_le; assumption. }
  assert (Hk : existsb (str_eqb c) categories = true).
  { unfold parse_category in Hc.
    destruct (get_field (lit "category") fields) as [| | | |t| |];
      try discriminate.
    destruct (existsb (str_eqb t) categories) eqn:K; [|discriminate].
    injection Hc as <-; exact K. }
  rewrite Hx, Hk, andb_true_r. exact Hl.
Qed.

(** ** create, get, list *)

Lemma getExpense_createExpense s i now :
  getExpense (fst (createExpense s i now)) (id (snd (createExpense s i now)))
  = Some (snd (createExpense s i now)).
Proof. unfold getExpense; simpl. apply JsMapFacts.get_set_same. Qed.

(** C1. For every valid payload, [create] followed by [get] with the id of
    the returned record yields the record [create] returned. *)
Theorem create_then_get (s : MemStorage) (input : InsertExpense) (now : Z) :
  valid_payload input = true ->
  forall s' created, createExpense s input now = (s', created) ->
  getExpense s' (id created) = Some created.
Proof.
  intros _ s' created E.
  pose proof (getExpense_createExpense s input now) as H.
  rewrite E in H. exact H.
Qed.

Lemma create_then_get_witness :
  valid_payload lunch = true
  /\ getExpense (fst (createExpense MemStorage_new lunch 1700000000000))
       (id (snd (createExpense MemStorage_new lunch 1700000000000)))
     = Some (snd (createExpense MemStorage_new lunch 1700000000000)).
Proof.
  split; [reflexivity|].
  apply (create_then_get MemStorage_new lunch 1700000000000);
    reflexivity.
Defined.

(** C4. [list()] returns all stored expenses, most recent first; being a
    total function of the store, it cannot fail. *)
Theorem list_sorted_by_createdAt_desc (s : MemStorage) :
  Permutation (getExpenses s) (JsMap.values (expenses s))
  /\ StronglySorted (fun a b => createdAt a >= createdAt b) (getExpenses s).
Proof.
  split; [apply Array_sort_perm|].
  unfold getExpenses.
  eapply StronglySorted_ind with
    (P := StronglySorted (fun a b => createdAt a >= createdAt b));
    [constructor | |
     exact (Array_sort_sorted by_createdAt_desc by_createdAt_desc_trans
              by_createdAt_desc_total (JsMap.values (expenses s)))].
  intros a l _ IH Hall. constructor; [exact IH|].
  eapply Forall_impl; [|exact Hall].
  unfold by_createdAt_desc; intros; lia.
Qed.

(** C5. [listByCategory(c)] is the subsequence of [list()] whose category is
    [c], in the same order; when no stored expense has category [c], as for a
    [c] outside the recognised set, it is empty. *)
Theorem listByCategory_is_filtered_list (s : MemStorage) (c : jsstring) :
  getExpensesByCategory s c
  = filter (fun e => str_eqb (category e) c) (getExpenses s)
  /\ ((~ In c categories /\
       forall e, In e (JsMap.values (expenses s)) -> category e <> c) ->
      getExpensesByCategory s c = []).
Proof.
  split.
  - apply Array_sort_filter;
      [exact by_createdAt_desc_trans | exact by_createdAt_desc_total].
  - intros [_ H]. unfold getExpensesByCategory.
    replace (filter _ (JsMap.values (expenses s))) with (@nil Expense);
      [reflexivity|].
    symmetry. induction (JsMap.values (expenses s)) as [|e l IH]; simpl;
      [reflexivity|].
    destruct (str_eqb (category e) c) eqn:E.
    + apply str_eqb_eq in E. exfalso. apply (H e); [left; reflexivity | exact E].
    + apply IH. intros e' He'. apply H. right; exact He'.
Qed.

Lemma listByCategory_is_filtered_list_witness :
  getExpensesByCategory one_lunch (lit "travel")
  = filter (fun e => str_eqb (category e) (lit "travel")) (getExpenses one_lunch)
  /\ getExpensesByCategory one_lunch (lit "travel") = [].
Proof.
  destruct (listByCategory_is_filtered_list one_lunch (lit "travel")) as [H1 H2].
  split; [exact H1|].
  apply H2. split.
  - intros H; simpl in H; repeat (destruct H as [H|H]; [discriminate H|]);
      exact H.
  - intros e [<-|[]]; discriminate.
Defined.

(** ** delete *)

Lemma deleteExpense_absent s i :
  getExpense s i = None -> deleteExpense s i = (s, false).
Proof.
  unfold getExpense, deleteExpense. intros H.
  rewrite (JsMapFacts.delete_absent _ _ H). destruct s; reflexivity.
Qed.

(** C8. [delete] of an id that is not in the store returns false and leaves
    the store, and so [list()], as it was. *)
Theorem delete_absent_id (s : MemStorage) (i : Z) :
  getExpense s i = None ->
  deleteExpense s i = (s, false)
  /\ getExpenses (fst (deleteExpense s i)) = getExpenses s.
Proof.
  intros H. rewrite (deleteExpense_absent s i H). split; reflexivity.
Qed.

Lemma delete_absent_id_witness :
  getExpense one_lunch 7 = None
  /\ deleteExpense one_lunch 7 = (one_lunch, false)
  /\ getExpenses (fst (deleteExpense one_lunch 7)) = getExpenses one_lunch.
Proof.
  split; [reflexivity|].
  apply (delete_absent_id one_lunch 7). reflexivity.
Defined.

(** ** Runs of the store *)

Lemma Zseq_S a n : Zseq a (S n) = a :: Zseq (a + 1) n.
Proof.
  unfold Zseq. simpl. f_equal; [lia|].
  rewrite <- seq_shift, map_map. apply map_ext. intros; lia.
Qed.

Lemma Zseq_lower a n x : In x (Zseq a n) -> a <= x.
Proof.
  unfold Zseq. rewrite in_map_iff. intros [k [<- _]]. lia.
Qed.

Lemma Zseq_NoDup n : forall a, NoDup (Zseq a n).
Proof.
  induction n as [|n IH]; intros a; [constructor|].
  rewrite Zseq_S. constructor; [|apply IH].
  intros H. apply Zseq_lower in H. lia.
Qed.

Lemma currentId_deleteExpense s i :
  currentId (fst (deleteExpense s i)) = currentId s.
Proof.
  unfold deleteExpense. destruct (JsMap.delete i (expenses s)); reflexivity.
Qed.

Lemma run_ids ops : forall s,
  snd (run ops s) = Zseq (currentId s) (creates ops).
Proof.
  induction ops as [|[input now|i] ops IH]; intros s; simpl.
  - reflexivity.
  - specialize (IH (fst (createExpense s input now))).
    simpl in IH. destruct (run ops _) as [s2 ids]; simpl in *.
    unfold creates; simpl. fold (creates ops).
    rewrite Zseq_S, IH. reflexivity.
  - rewrite IH, currentId_deleteExpense. reflexivity.
Qed.

(** C2. From the initial store, the ids the [create] calls assign are 1, 2,
    3, ... in the order of the calls, whatever is deleted in between; no id
    is assigned twice. *)
Theorem ids_sequential (ops : list Op) :
  snd (run ops MemStorage_new) = Zseq 1 (creates ops)
  /\ NoDup (snd (run ops MemStorage_new)).
Proof.
  rewrite run_ids. split; [reflexivity | apply Zseq_NoDup].
Qed.

(** Every id in use was handed out before: it is below the counter. *)
Lemma reachable_keys_below s :
  reachable s -> Forall (fun k => k < currentId s) (JsMap.keys (expenses s)).
Proof.
  induction 1 as [|s input now Hr IH|s i Hr IH].
  - constructor.
  - simpl. rewrite JsMapFacts.set_fresh.
    + unfold JsMap.keys. rewrite map_app. apply Forall_app; split.
      * eapply Forall_impl; [|exact IH]. intros; simpl in *; lia.
      * repeat constructor; simpl; lia.
    + apply JsMapFacts.get_none_not_key. intros Hin.
      rewrite Forall_forall in IH. specialize (IH _ Hin). lia.
  - rewrite currentId_deleteExpense.
    rewrite Forall_forall in *. intros k Hk. apply IH.
    unfold deleteExpense in Hk.
    pose proof (JsMapFacts.delete_keys_incl i (expenses s)) as Hi.
    destruct (JsMap.delete i (expenses s)); simpl in *. apply Hi, Hk.
Qed.

Lemma reachable_counter_fresh s :
  reachable s -> getExpense s (currentId s) = None.
Proof.
  intros Hr. apply JsMapFacts.get_none_not_key. intros Hin.
  pose proof (reachable_keys_below s Hr) as H.
  rewrite Forall_forall in H. specialize (H _ Hin). lia.
Qed.

Lemma getExpenses_length s :
  List.length (getExpenses s) = List.length (expenses s).
Proof.
  unfold getExpenses, JsMap.values.
  rewrite Array_sort_length, length_map. reflexivity.
Qed.

(** C9. The length of [list()] grows by exactly one with a [create], and
    shrinks by exactly one with the [delete] of an id that is in the store. *)
Theorem list_length_create_delete
  (s : MemStorage) (input : InsertExpense) (now : Z) (i : Z) :
  reachable s ->
  List.length (getExpenses (fst (createExpense s input now)))
  = S (List.length (getExpenses s))
  /\ (getExpense s i <> None ->
      snd (deleteExpense s i) = true
      /\ S (List.length (getExpenses (fst (deleteExpense s i))))
         = List.length (getExpenses s)).
Proof.
  intros Hr. split.
  - rewrite !getExpenses_length. simpl.
    rewrite JsMapFacts.set_fresh by exact (reachable_counter_fresh s Hr).
    rewrite length_app. simpl. lia.
  - intros Hi. rewrite !getExpenses_length.
    destruct (JsMapFacts.delete_present i (expenses s) Hi) as [Hb Hl].
    unfold deleteExpense.
    destruct (JsMap.delete i (expenses s)) as [m b]; simpl in *. auto.
Qed.

Lemma list_length_create_delete_witness :
  List.length (getExpenses (fst (createExpense one_lunch lunch 1700000000001)))
  = S (List.length (getExpenses one_lunch))
  /\ snd (deleteExpense one_lunch 1) = true
  /\ S (List.length (getExpenses (fst (deleteExpense one_lunch 1))))
     = List.length (getExpenses one_lunch).
Proof.
  destruct (list_length_create_delete one_lunch lunch 1700000000001 1
              (reach_create _ lunch 1700000000000 reach_new)) as [H1 H2].
  split; [exact H1|].
  apply H2. discriminate.
Defined.

(** ** GET /api/expenses *)

(** C10. With [category] the empty string the handler answers as it does
    with no [category] at all: the full list, not the expenses whose
    category is the empty string. *)
Theorem empty_category_lists_all (s : MemStorage) :
  get_expenses s (QString []) = get_expenses s QUndefined
  /\ get_expenses s (QString []) = mkResponse 200 (ExpenseList (getExpenses s)).
Proof. split; reflexivity. Qed.

(** On a store that holds an expense the two answers differ. *)
Example empty_category_not_filtered :
  get_expenses one_lunch (QString [])
  <> mkResponse 200 (ExpenseList (getExpensesByCategory one_lunch [])).
Proof. discriminate. Qed.

(** ** The stored amount *)

Lemma createExpense_amount s input now :
  amount (snd (createExpense s input now)) = Number_toString (ins_amount input).
Proof. reflexivity. Qed.

Lemma toString_250_50 : Number_toString (Finite false 501 (-1)) = lit "250.5".
Proof. vm_compute; reflexivity. Qed.

Lemma parse_lunch_body : insertExpenseSchema_parse lunch_body = inl lunch.
Proof. vm_compute; reflexivity. Qed.

Lemma create_lunch now :
  createExpense MemStorage_new lunch now
  = (mkMemStorage
       [(1, mkExpense 1 (lit "250.5") (lit "Lunch") (lit "food") now)] 2,
     mkExpense 1 (lit "250.5") (lit "Lunch") (lit "food") now).
Proof.
  unfold createExpense, lunch; cbn [ins_amount ins_description ins_category].
  rewrite toString_250_50. reflexivity.
Qed.

Lemma post_lunch now :
  post_expenses MemStorage_new lunch_body now
  = (fst (createExpense MemStorage_new lunch now),
     mkResponse 201
       (OneExpense (mkExpense 1 (lit "250.5") (lit "Lunch") (lit "food") now))).
Proof.
  unfold post_expenses. rewrite parse_lunch_body, create_lunch. reflexivity.
Qed.

(** C3. The payload with amount 250.50 is valid, and the store keeps and
    returns its amount as [250.5]: one decimal place, not two. *)
Theorem stored_amount_250_50 (now : Z) :
  is_number (Finite false 501 (-1)) = true
  /\ insertExpenseSchema_parse lunch_body = inl lunch
  /\ post_expenses MemStorage_new lunch_body now
     = (fst (createExpense MemStorage_new lunch now),
        mkResponse 201
          (OneExpense (mkExpense 1 (lit "250.5") (lit "Lunch") (lit "food") now)))
  /\ two_decimal_places (amount (snd (createExpense MemStorage_new lunch now))) = false
  /\ two_decimal_places (lit "250.50") = true.
Proof.
  split; [vm_compute; reflexivity|].
  split; [exact parse_lunch_body|].
  split; [exact (post_lunch now)|].
  split; [|vm_compute; reflexivity].
  rewrite createExpense_amount. unfold lunch; cbn [ins_amount].
  rewrite toString_250_50. vm_compute; reflexivity.
Qed.

(** ** POST /api/expenses *)

Ltac issue_list :=
  split;
  [ discriminate
  | repeat first [apply Forall_nil | apply Forall_cons];
    unfold field_level; simpl; tauto ].

Lemma parse_amount_issues v :
  match parse_amount v with
  | inl x => Number_positive x = true
  | inr l => l <> [] /\ Forall field_level l
  end.
Proof.
  unfold parse_amount.
  destruct v as [| | |x| | |]; try issue_list.
  destruct x as [|neg|neg m e]; try issue_list;
    match goal with |- context [if ?b then _ else _] => destruct b eqn:P end;
    try exact P; issue_list.
Qed.

Lemma parse_description_issues v :
  match parse_description v with
  | inl d => 1 <= str_length d <= 100
  | inr l => l <> [] /\ Forall field_level l
  end.
Proof.
  unfold parse_description.
  destruct v as [| | | |d| |]; try issue_list.
  destruct (str_length d <? 1) eqn:L1; destruct (100 <? str_length d) eqn:L2;
    simpl; try issue_list.
  apply Z.ltb_ge in L1, L2. lia.
Qed.

Lemma existsb_str_eqb c l : existsb (str_eqb c) l = true <-> In c l.
Proof.
  rewrite existsb_exists. split.
  - intros [x [Hin E]]. apply str_eqb_eq in E. subst; exact Hin.
  - intros Hin. exists c. split; [exact Hin | apply str_eqb_refl].
Qed.

Lemma parse_category_issues v :
  match parse_category v with
  | inl c => In c categories
  | inr l => l <> [] /\ Forall field_level l
  end.
Proof.
  unfold parse_category.
  destruct v as [| | | |c| |]; try issue_list.
  destruct (existsb (str_eqb c) categories) eqn:E.
  - apply existsb_str_eqb; exact E.
  - issue_list.
Qed.

(** A body the schema refuses yields at least one issue, and on an object
    every issue names a field. *)
Lemma parse_object_issues fields errors :
  insertExpenseSchema_parse (VObject fields) = inr errors ->
  errors <> [] /\ Forall field_level errors.
Proof.
  unfold insertExpenseSchema_parse.
  pose proof (parse_amount_issues (get_field (lit "amount") fields)) as Ha.
  pose proof (parse_description_issues (get_field (lit "description") fields)) as Hd.
  pose proof (parse_category_issues (get_field (lit "category") fields)) as Hc.
  destruct (parse_amount _) as [x|la];
    destruct (parse_description _) as [d|ld];
    destruct (parse_category _) as [c|lc];
    intros E; try discriminate; injection E as <-; simpl;
    repeat match goal with H : _ /\ _ |- _ => destruct H end;
    (split;
     [ intros N; repeat (apply app_eq_nil in N; destruct N as [? N]);
       subst; congruence
     | rewrite ?app_nil_r; repeat (apply Forall_app; split); auto ]).
Qed.

Lemma fails_schema_refused fields :
  fails_schema fields ->
  exists errors, insertExpenseSchema_parse (VObject fields) = inr errors.
Proof.
  unfold insertExpenseSchema_parse.
  pose proof (parse_amount_issues (get_field (lit "amount") fields)) as Ha.
  pose proof (parse_description_issues (get_field (lit "description") fields)) as Hd.
  pose proof (parse_category_issues (get_field (lit "category") fields)) as Hc.
  intros F.
  destruct (parse_amount _) as [x|la] eqn:Pa;
    destruct (parse_description _) as [d|ld] eqn:Pd;
    destruct (parse_category _) as [c|lc] eqn:Pc;
    try (eexists; reflexivity).
  exfalso.
  destruct F as [[y [G Ny]]|[[t [G Nt]]|[k [G Nk]]]].
  - rewrite G in Pa. unfold parse_amount in Pa.
    destruct y; try discriminate; rewrite Ny in Pa; discriminate.
  - rewrite G in Pd. unfold parse_description in Pd.
    destruct (str_length t <? 1) eqn:L1; [discriminate|].
    destruct (100 <? str_length t) eqn:L2; [discriminate|].
    apply Z.ltb_ge in L1, L2.
    destruct Nt as [->|Nt]; [unfold str_length in L1; simpl in L1; lia | lia].
  - rewrite G in Pc. unfold parse_category in Pc.
    destruct (existsb (str_eqb k) categories) eqn:E; [|discriminate].
    apply existsb_str_eqb in E. contradiction.
Qed.

(** C6. A POST whose body breaks the schema is answered 400 with a non-empty
    list of issues, each naming the field it is about, and the store is left
    as it was. *)
Theorem post_invalid_is_400
  (s : MemStorage) (fields : list (jsstring * value)) (now : Z) :
  fails_schema fields ->
  exists errors,
    post_expenses s (VObject fields) now
    = (s, mkResponse 400 (ValidationFailure (lit "Validation error") errors))
    /\ errors <> []
    /\ Forall field_level errors.
Proof.
  intros F. destruct (fails_schema_refused fields F) as [errors E].
  exists errors. unfold post_expenses. rewrite E.
  split; [reflexivity | exact (parse_object_issues fields errors E)].
Qed.

Lemma post_invalid_is_400_witness :
  fails_schema free_lunch_fields
  /\ exists errors,
       post_expenses one_lunch (VObject free_lunch_fields) 1700000000002
       = (one_lunch,
          mkResponse 400 (ValidationFailure (lit "Validation error") errors))
       /\ errors <> []
       /\ Forall field_level errors.
Proof.
  assert (F : fails_schema free_lunch_fields).
  { left. exists (Finite false 0 0). split; reflexivity. }
  split; [exact F|].
  exact (post_invalid_is_400 one_lunch free_lunch_fields 1700000000002 F).
Defined.

(** ** GET and DELETE /api/expenses/:id *)

Lemma digit_cases c :
  is_decimal_digit c = true ->
  In c [48; 49; 50; 51; 52; 53; 54; 55; 56; 57].
Proof.
  unfold is_decimal_digit. rewrite andb_true_iff, !Z.leb_le. simpl. lia.
Qed.

Lemma digit_not_white_space c :
  is_decimal_digit c = true -> is_white_space c = false.
Proof.
  intros H. apply digit_cases in H. simpl in H.
  repeat (destruct H as [<-|H]; [reflexivity|]). contradiction.
Qed.

Lemma digit_value_decimal c :
  is_decimal_digit c = true -> digit_value 10 c = Some (c - 48).
Proof.
  intros H. apply digit_cases in H. simpl in H.
  repeat (destruct H as [<-|H]; [reflexivity|]). contradiction.
Qed.

Lemma read_digits_decimal s :
  forallb is_decimal_digit s = true ->
  forall acc,
    read_digits 10 s acc true
    = Some (fold_left (fun a c => a * 10 + (c - 48)) s acc).
Proof.
  induction s as [|c s IH]; simpl; [reflexivity|].
  rewrite andb_true_iff. intros [Hc Hs] acc.
  rewrite (digit_value_decimal c Hc). apply IH, Hs.
Qed.

Lemma read_digits_unsigned s :
  unsigned_decimal s = true ->
  read_digits 10 s 0 false = Some (decimal_value s).
Proof.
  destruct s as [|c s]; [discriminate|].
  unfold unsigned_decimal. cbn [forallb read_digits].
  rewrite andb_true_iff. intros [Hc Hs].
  rewrite (digit_value_decimal c Hc).
  apply (read_digits_decimal s Hs).
Qed.

Lemma split_radix_unsigned s :
  unsigned_decimal s = true -> split_radix s = (10, s).
Proof.
  destruct s as [|c1 [|c2 r]]; try reflexivity.
  unfold unsigned_decimal. cbn [forallb]. rewrite !andb_true_iff.
  intros [_ [H2 _]]. unfold split_radix.
  apply digit_cases in H2. simpl in H2.
  repeat (destruct H2 as [<-|H2]; [rewrite andb_false_r; reflexivity|]).
  contradiction.
Qed.

Lemma parseInt_unsigned s :
  unsigned_decimal s = true -> parseInt s = Some (decimal_value s).
Proof.
  intros H. unfold parseInt.
  destruct s as [|c r]; [discriminate|].
  assert (Hc : is_decimal_digit c = true).
  { unfold unsigned_decimal in H. cbn [forallb] in H.
    apply andb_true_iff in H; tauto. }
  cbn [trim_start]. rewrite (digit_not_white_space c Hc).
  assert (Hs : split_sign (c :: r) = (1, c :: r)).
  { unfold split_sign. apply digit_cases in Hc. simpl in Hc.
    repeat (destruct Hc as [<-|Hc]; [reflexivity|]). contradiction. }
  rewrite Hs, (split_radix_unsigned _ H), (read_digits_unsigned _ H).
  f_equal. lia.
Qed.

Lemma parseInt_signed c r sign :
  is_white_space c = false -> split_sign (c :: r) = (sign, r) ->
  unsigned_decimal r = true ->
  parseInt (c :: r) = Some (sign * decimal_value r).
Proof.
  intros Hw Hs H. unfold parseInt. cbn [trim_start].
  rewrite Hw, Hs, (split_radix_unsigned _ H), (read_digits_unsigned _ H).
  reflexivity.
Qed.

(** A valid integer is read as the integer it denotes. *)
Lemma parseInt_valid_integer p :
  valid_integer p = true -> parseInt p = Some (integer_value p).
Proof.
  destruct p as [|c r]; [discriminate|].
  unfold valid_integer, integer_value.
  destruct (c =? 45) eqn:E45; [|destruct (c =? 43) eqn:E43]; cbn [orb].
  - apply Z.eqb_eq in E45; subst c. intros H.
    rewrite (parseInt_signed 45 r (-1)) by (reflexivity || exact H).
    f_equal; lia.
  - apply Z.eqb_eq in E43; subst c. intros H.
    rewrite (parseInt_signed 43 r 1) by (reflexivity || exact H).
    f_equal; lia.
  - apply parseInt_unsigned.
Qed.

(** The store whose only expense has id 1. *)
Lemma one_lunch_has_1 : getExpense one_lunch 1 <> None.
Proof. discriminate. Qed.

(** The claim as the specification words it fails: [1abc] is not a valid
    integer, and both routes answer 200 for it when the store holds
    expense 1. *)
Lemma trailing_characters_accepted :
  valid_integer (lit "1abc") = false
  /\ status (get_expense one_lunch (lit "1abc")) = 200
  /\ status (snd (delete_expense one_lunch (lit "1abc"))) = 200.
Proof. repeat split. Qed.

Lemma deleteExpense_flag s i :
  snd (deleteExpense s i) = true <-> getExpense s i <> None.
Proof.
  unfold deleteExpense, getExpense.
  rewrite <- JsMapFacts.delete_flag.
  destruct (JsMap.delete i (expenses s)); reflexivity.
Qed.

Lemma read_digits_seen r s : forall acc,
  exists n, read_digits r s acc true = Some n.
Proof.
  induction s as [|c s IH]; intros acc; simpl; [eexists; reflexivity|].
  destruct (digit_value r c); [apply IH | eexists; reflexivity].
Qed.

(** [parseInt] gives [NaN] exactly on the parameters that hold no integer. *)
Lemma parseInt_none_iff p : parseInt p = None <-> lacks_integer p = true.
Proof.
  unfold parseInt, lacks_integer.
  destruct (split_sign (trim_start p)) as [sign s2].
  destruct (split_radix s2) as [radix s3].
  destruct s3 as [|c s3]; cbn [read_digits];
    [split; intros _; reflexivity|].
  destruct (digit_value radix c) as [d|]; [|split; intros _; reflexivity].
  destruct (read_digits_seen radix s3 (0 * radix + d)) as [n ->].
  split; discriminate.
Qed.

Lemma digit_value_not_decimal c :
  is_decimal_digit c = false -> digit_value 10 c = None.
Proof.
  unfold is_decimal_digit, digit_value. intros ->.
  destruct ((97 <=? c) && (c <=? 122)) eqn:E1.
  - apply andb_true_iff in E1 as [L _]. apply Z.leb_le in L.
    assert (H : (c - 87 <? 10) = false) by (apply Z.ltb_ge; lia).
    rewrite H. reflexivity.
  - destruct ((65 <=? c) && (c <=? 90)) eqn:E2; [|reflexivity].
    apply andb_true_iff in E2 as [L _]. apply Z.leb_le in L.
    assert (H : (c - 55 <? 10) = false) by (apply Z.ltb_ge; lia).
    rewrite H. reflexivity.
Qed.

Lemma read_digits_tail d r :
  forallb is_decimal_digit d = true -> halts_decimal r = true ->
  forall acc,
    read_digits 10 (d ++ r) acc true
    = Some (fold_left (fun a c => a * 10 + (c - 48)) d acc).
Proof.
  intros Hd Hr. induction d as [|c d IH]; intros acc.
  - simpl. destruct r as [|c r]; [reflexivity|].
    simpl in Hr. apply negb_true_iff in Hr.
    simpl. rewrite (digit_value_not_decimal c Hr). reflexivity.
  - simpl in Hd. apply andb_true_iff in Hd as [Hc Hd].
    simpl. rewrite (digit_value_decimal c Hc). apply IH, Hd.
Qed.

Lemma read_digits_unsigned_tail d r :
  unsigned_decimal d = true -> halts_decimal r = true ->
  read_digits 10 (d ++ r) 0 false = Some (decimal_value d).
Proof.
  destruct d as [|c d]; [discriminate|].
  unfold unsigned_decimal. cbn [forallb]. rewrite andb_true_iff.
  intros [Hc Hd] Hr. cbn [app read_digits].
  rewrite (digit_value_decimal c Hc).
  apply (read_digits_tail d r Hd Hr).
Qed.

Lemma split_radix_tail d r :
  unsigned_decimal d = true ->
  match r with
  | [] => true
  | c :: _ => negb (str_eqb d [48] && ((c =? 120) || (c =? 88)))
  end = true ->
  split_radix (d ++ r) = (10, d ++ r).
Proof.
  destruct d as [|c1 [|c2 d]]; [discriminate| |].
  - intros _. destruct r as [|c r]; [reflexivity|].
    cbn [app str_eqb split_radix]. rewrite andb_true_r.
    intros H. apply negb_true_iff in H. rewrite H. reflexivity.
  - unfold unsigned_decimal. cbn [forallb]. rewrite !andb_true_iff.
    intros [_ [H2 _]] _. cbn [app split_radix].
    apply digit_cases in H2. simpl in H2.
    repeat (destruct H2 as [<-|H2]; [rewrite andb_false_r; reflexivity|]).
    contradiction.
Qed.

Lemma ignorable_tail_split v r :
  ignorable_tail v r = true ->
  halts_decimal r = true
  /\ match r with
     | [] => true
     | c :: _ =>
         negb (str_eqb (unsigned_part v) [48] && ((c =? 120) || (c =? 88)))
     end = true.
Proof.
  unfold ignorable_tail, halts_decimal. destruct r as [|c r]; [tauto|].
  rewrite andb_true_iff. tauto.
Qed.

(** What follows a valid integer is ignored. *)
Lemma parseInt_valid_integer_tail v r :
  valid_integer v = true -> ignorable_tail v r = true ->
  parseInt (v ++ r) = Some (integer_value v).
Proof.
  intros V T. destruct (ignorable_tail_split v r T) as [Hh Hx]. clear T.
  destruct v as [|c d]; [discriminate|].
  unfold valid_integer in V. unfold integer_value.
  unfold unsigned_part in Hx.
  assert (signed : forall sign,
            is_white_space c = false ->
            split_sign (c :: d ++ r) = (sign, d ++ r) ->
            unsigned_decimal d = true ->
            match r with
            | [] => true
            | c0 :: _ => negb (str_eqb d [48] && ((c0 =? 120) || (c0 =? 88)))
            end = true ->
            parseInt ((c :: d) ++ r) = Some (sign * decimal_value d)).
  { intros sign Hw Hs Hd Hx'. unfold parseInt. cbn [app trim_start].
    rewrite Hw, Hs, (split_radix_tail d r Hd Hx'),
      (read_digits_unsigned_tail d r Hd Hh). reflexivity. }
  destruct (c =? 45) eqn:E45; [|destruct (c =? 43) eqn:E43];
    cbn [orb] in V, Hx.
  - apply Z.eqb_eq in E45; subst c.
    rewrite (signed (-1)) by (reflexivity || assumption). f_equal; lia.
  - apply Z.eqb_eq in E43; subst c.
    rewrite (signed 1) by (reflexivity || assumption). f_equal; lia.
  - assert (Hc : is_decimal_digit c = true).
    { unfold unsigned_decimal in V. cbn [forallb] in V.
      apply andb_true_iff in V; tauto. }
    unfold parseInt. change ((c :: d) ++ r) with (c :: d ++ r).
    cbn [trim_start]. rewrite (digit_not_white_space c Hc).
    assert (Hs : split_sign (c :: d ++ r) = (1, c :: d ++ r))
      by (unfold split_sign; rewrite E45, E43; reflexivity).
    rewrite Hs. change (c :: d ++ r) with ((c :: d) ++ r).
    rewrite (split_radix_tail (c :: d) r V Hx),
      (read_digits_unsigned_tail (c :: d) r V Hh).
    f_equal; lia.
Qed.

Lemma get_expense_400_iff s p :
  status (get_expense s p) = 400 <-> parseInt p = None.
Proof.
  unfold get_expense. destruct (parseInt p) as [i|].
  - destruct (getExpense s i); split; discriminate.
  - split; reflexivity.
Qed.

Lemma delete_expense_400_iff s p :
  status (snd (delete_expense s p)) = 400 <-> parseInt p = None.
Proof.
  unfold delete_expense. destruct (parseInt p) as [i|].
  - destruct (deleteExpense s i) as [s' b]. destruct b; split; discriminate.
  - split; reflexivity.
Qed.

(** C7, amended. Both routes answer 400 exactly when the id parameter holds
    no integer to read: after leading white space, an optional sign and an
    optional [0x] or [0X], it does not go on with a digit.  Otherwise
    [parseInt] reads an integer, and the answer is 404 if no expense has it
    as id and 200 if one has.  A valid integer of magnitude at most 2^53 is
    read as itself, also when characters follow it that do not begin with a
    decimal digit (nor, after the single digit 0, with [x] or [X]): they are
    ignored. *)
Theorem id_routes_status (s : MemStorage) (p : jsstring) :
  (status (get_expense s p) = 400 <-> lacks_integer p = true)
  /\ (status (snd (delete_expense s p)) = 400 <-> lacks_integer p = true)
  /\ (lacks_integer p = true ->
      get_expense s p = mkResponse 400 (Message (lit "Invalid expense ID"))
      /\ delete_expense s p
         = (s, mkResponse 400 (Message (lit "Invalid expense ID"))))
  /\ (lacks_integer p = false -> exists i, parseInt p = Some i)
  /\ (forall i, parseInt p = Some i -> getExpense s i = None ->
      status (get_expense s p) = 404
      /\ delete_expense s p = (s, mkResponse 404 (Message (lit "Expense not found"))))
  /\ (forall i e, parseInt p = Some i -> getExpense s i = Some e ->
      get_expense s p = mkResponse 200 (OneExpense e)
      /\ status (snd (delete_expense s p)) = 200)
  /\ (valid_integer p = true -> Z.abs (integer_value p) <= 2 ^ 53 ->
      parseInt p = Some (integer_value p))
  /\ (forall v r, p = v ++ r -> valid_integer v = true ->
      ignorable_tail v r = true -> Z.abs (integer_value v) <= 2 ^ 53 ->
      parseInt p = Some (integer_value v)
      /\ status (get_expense s p)
         = match getExpense s (integer_value v) with
           | Some _ => 200
           | None => 404
           end
      /\ status (snd (delete_expense s p))
         = match getExpense s (integer_value v) with
           | Some _ => 200
           | None => 404
           end).
Proof.
  split; [rewrite get_expense_400_iff; apply parseInt_none_iff|].
  split; [rewrite delete_expense_400_iff; apply parseInt_none_iff|].
  split; [|split; [|split; [|split; [|split]]]].
  - intros L. apply parseInt_none_iff in L.
    unfold get_expense, delete_expense. rewrite L. split; reflexivity.
  - intros L. destruct (parseInt p) as [i|] eqn:P; [exists i; reflexivity|].
    apply parseInt_none_iff in P. congruence.
  - unfold get_expense, delete_expense.
    intros i -> Hg. rewrite Hg. split; [reflexivity|].
    rewrite (deleteExpense_absent s i Hg). reflexivity.
  - unfold get_expense, delete_expense.
    intros i e -> Hg. rewrite Hg. split; [reflexivity|].
    assert (Hd : snd (deleteExpense s i) = true)
      by (apply deleteExpense_flag; congruence).
    destruct (deleteExpense s i) as [s' b]; simpl in Hd; subst b. reflexivity.
  - intros V _. apply parseInt_valid_integer, V.
  - intros v r -> V T _.
    pose proof (parseInt_valid_integer_tail v r V T) as P.
    split; [exact P|].
    unfold get_expense, delete_expense. rewrite P.
    destruct (getExpense s (integer_value v)) as [e|] eqn:G.
    + split; [reflexivity|].
      assert (Hd : snd (deleteExpense s (integer_value v)) = true)
        by (apply deleteExpense_flag; congruence).
      destruct (deleteExpense s (integer_value v)) as [s' b];
        simpl in Hd; subst b. reflexivity.
    + split; [reflexivity|].
      rewrite (deleteExpense_absent s _ G). reflexivity.
Qed.

Lemma id_routes_status_witness :
  (status (get_expense one_lunch (lit "0x")) = 400
   /\ status (snd (delete_expense one_lunch (lit "0x"))) = 400)
  /\ (get_expense one_lunch (lit "abc")
      = mkResponse 400 (Message (lit "Invalid expense ID"))
      /\ delete_expense one_lunch (lit "abc")
         = (one_lunch, mkResponse 400 (Message (lit "Invalid expense ID"))))
  /\ (exists i, parseInt (lit " -7z") = Some i)
  /\ (status (get_expense one_lunch (lit "2")) = 404
      /\ delete_expense one_lunch (lit "2")
         = (one_lunch, mkResponse 404 (Message (lit "Expense not found"))))
  /\ (get_expense one_lunch (lit "1")
      = mkResponse 200 (OneExpense (snd (createExpense MemStorage_new lunch 1700000000000)))
      /\ status (snd (delete_expense one_lunch (lit "1"))) = 200)
  /\ parseInt (lit "-12") = Some (integer_value (lit "-12"))
  /\ (parseInt (lit "1abc") = Some (integer_value (lit "1"))
      /\ status (get_expense one_lunch (lit "1abc"))
         = match getExpense one_lunch (integer_value (lit "1")) with
           | Some _ => 200
           | None => 404
           end
      /\ status (snd (delete_expense one_lunch (lit "1abc")))
         = match getExpense one_lunch (integer_value (lit "1")) with
           | Some _ => 200
           | None => 404
           end).
Proof.
  split; [split|split; [|split; [|split; [|split; [|split]]]]].
  - apply (proj1 (id_routes_status one_lunch (lit "0x"))). reflexivity.
  - apply (proj1 (proj2 (id_routes_status one_lunch (lit "0x")))). reflexivity.
  - apply (proj1 (proj2 (proj2 (id_routes_status one_lunch (lit "abc"))))).
    reflexivity.
  - apply (proj1 (proj2 (proj2 (proj2
             (id_routes_status one_lunch (lit " -7z")))))).
    reflexivity.
  - apply (proj1 (proj2 (proj2 (proj2 (proj2
             (id_routes_status one_lunch (lit "2")))))) 2); reflexivity.
  - apply (proj1 (proj2 (proj2 (proj2 (proj2 (proj2
             (id_routes_status one_lunch (lit "1"))))))) 1); reflexivity.
  - apply (proj1 (proj2 (proj2 (proj2 (proj2 (proj2 (proj2
             (id_routes_status one_lunch (lit "-12"))))))))); [reflexivity|].
    vm_compute. discriminate.
  - apply (proj2 (proj2 (proj2 (proj2 (proj2 (proj2 (proj2
             (id_routes_status one_lunch (lit "1abc"))))))))
             (lit "1") (lit "abc")); try reflexivity.
    vm_compute. discriminate.
Defined.

(** The scenario of the specification, but for the text of the amount:
    create, read back, delete, read again. *)
Example scenario (now : Z) :
  let '(s1, r1) := post_expenses MemStorage_new lunch_body now in
  let r2 := get_expense s1 (lit "1") in
  let '(s2, r3) := delete_expense s1 (lit "1") in
  let r4 := get_expense s2 (lit "1") in
  map status [r1; r2; r3; r4] = [201; 200; 200; 404]
  /\ body r2 = body r1
  /\ s2 = mkMemStorage [] 2.
Proof.
  rewrite (post_lunch now), (create_lunch now). cbn [fst].
  vm_compute. repeat split.
Qed.

(** * Further properties of the store and the handlers *)

(** ** The map, when its keys are distinct *)

Module JsMapOrder.
Import JsMap.
Section Facts.
Context {V : Type}.
Implicit Types (m : JsMap.t V) (k j : Z) (v : V).

Lemma get_set_other k j v m : k <> j -> get j (set k v m) = get j m.
Proof.
  intros N. induction m as [|[k' v'] m IH]; simpl.
  - apply Z.eqb_neq in N. rewrite N. reflexivity.
  - destruct (k' =? k) eqn:E; simpl; [|rewrite IH; reflexivity].
    apply Z.eqb_eq in E; subst k'.
    apply Z.eqb_neq in N. rewrite N. reflexivity.
Qed.

Lemma get_delete_other k j m : k <> j -> get j (fst (delete k m)) = get j m.
Proof.
  intros N. induction m as [|[k' v'] m IH]; simpl; [reflexivity|].
  destruct (k' =? k) eqn:E.
  - apply Z.eqb_eq in E; subst k'.
    apply Z.eqb_neq in N. rewrite N. reflexivity.
  - destruct (delete k m) as [r b]; simpl in *. rewrite IH. reflexivity.
Qed.

Lemma get_delete_same k m : NoDup (keys m) -> get k (fst (delete k m)) = None.
Proof.
  induction m as [|[k' v'] m IH]; simpl; [reflexivity|].
  intros D. inversion D as [|? ? Hn D']; subst.
  destruct (k' =? k) eqn:E.
  - apply Z.eqb_eq in E; subst k'. simpl.
    apply JsMapFacts.get_none_not_key. exact Hn.
  - specialize (IH D'). destruct (delete k m) as [r b]; simpl in *.
    rewrite E. exact IH.
Qed.

Lemma get_some_in k v m : get k m = Some v -> In (k, v) m.
Proof.
  induction m as [|[k' v'] m IH]; simpl; [discriminate|].
  destruct (k' =? k) eqn:E.
  - apply Z.eqb_eq in E; subst k'. intros H; injection H as ->. left; reflexivity.
  - intros H. right. apply IH, H.
Qed.

Lemma in_get_some k v m : NoDup (keys m) -> In (k, v) m -> get k m = Some v.
Proof.
  induction m as [|[k' v'] m IH]; simpl; [contradiction|].
  intros D. inversion D as [|? ? Hn D']; subst.
  intros [H|H].
  - injection H as -> ->. rewrite Z.eqb_refl. reflexivity.
  - destruct (k' =? k) eqn:E; [|apply IH; assumption].
    apply Z.eqb_eq in E; subst k'. exfalso. apply Hn.
    apply in_map_iff. exists (k, v). split; [reflexivity | exact H].
Qed.

Lemma delete_incl k m : incl (fst (delete k m)) m.
Proof.
  induction m as [|[k' v'] m IH]; simpl; [apply incl_refl|].
  destruct (k' =? k); simpl; [apply incl_tl, incl_refl|].
  destruct (delete k m) as [r b]; simpl in *.
  apply incl_cons; [left; reflexivity | apply incl_tl; assumption].
Qed.

Lemma delete_keys_sorted k m :
  StronglySorted Z.lt (keys m) -> StronglySorted Z.lt (keys (fst (delete k m))).
Proof.
  induction m as [|[k' v'] m IH]; simpl; [auto|].
  intros S. inversion S as [|? ? S' Hall]; subst.
  destruct (k' =? k); simpl; [exact S'|].
  specialize (IH S').
  pose proof (JsMapFacts.delete_keys_incl k m) as Hi.
  destruct (delete k m) as [r b]; simpl in *.
  constructor; [exact IH|].
  rewrite Forall_forall in *. intros x Hx. apply Hall, Hi, Hx.
Qed.
End Facts.
End JsMapOrder.

Lemma sorted_keys_NoDup (l : list Z) : StronglySorted Z.lt l -> NoDup l.
Proof.
  induction 1 as [|x l S IH Hall]; constructor; [|exact IH].
  intros Hin. rewrite Forall_forall in Hall. specialize (Hall _ Hin). lia.
Qed.

Lemma sorted_snoc (l : list Z) (y : Z) :
  StronglySorted Z.lt l -> Forall (fun x => x < y) l ->
  StronglySorted Z.lt (l ++ [y]).
Proof.
  induction 1 as [|x l S IH Hall]; simpl; intros F.
  - repeat constructor.
  - inversion F as [|? ? Hx F']; subst.
    constructor; [apply IH, F'|].
    apply Forall_app; split; [exact Hall | repeat constructor; exact Hx].
Qed.

(** ** The invariant *)

Lemma store_inv_new : store_inv MemStorage_new.
Proof. repeat split; simpl; try lia; constructor. Qed.

Lemma store_inv_fresh s : store_inv s -> getExpense s (currentId s) = None.
Proof.
  intros [_ [_ F]]. apply JsMapFacts.get_none_not_key. intros Hin.
  apply in_map_iff in Hin as [[k v] [E Hin]]. simpl in E; subst k.
  rewrite Forall_forall in F. specialize (F _ Hin). simpl in F. lia.
Qed.

Lemma store_inv_create s input now :
  store_inv s -> store_inv (fst (createExpense s input now)).
Proof.
  intros I. pose proof (store_inv_fresh s I) as Hf.
  destruct I as [H1 [S F]]. unfold store_inv. simpl.
  rewrite (JsMapFacts.set_fresh _ _ _ Hf).
  split; [lia|split].
  - unfold JsMap.keys. rewrite map_app. apply sorted_snoc; [exact S|].
    apply Forall_forall. intros k Hk.
    apply in_map_iff in Hk as [[k' v] [E Hin]]. simpl in E; subst k'.
    rewrite Forall_forall in F. specialize (F _ Hin). simpl in *. lia.
  - apply Forall_app; split.
    + eapply Forall_impl; [|exact F].
      intros [k v] [E B]; simpl in *. split; [exact E | lia].
    + repeat constructor; simpl; lia.
Qed.

Lemma store_inv_delete s i :
  store_inv s -> store_inv (fst (deleteExpense s i)).
Proof.
  intros [H1 [S F]]. unfold store_inv, deleteExpense.
  pose proof (JsMapOrder.delete_keys_sorted i (expenses s) S) as S'.
  pose proof (JsMapOrder.delete_incl i (expenses s)) as Hi.
  destruct (JsMap.delete i (expenses s)) as [m b]; simpl in *.
  split; [exact H1|split; [exact S'|]].
  rewrite Forall_forall in *. intros kv Hkv. apply F, Hi, Hkv.
Qed.

Lemma reachable_store_inv s : reachable s -> store_inv s.
Proof.
  induction 1;
    [apply store_inv_new | apply store_inv_create | apply store_inv_delete];
    assumption.
Qed.

Lemma store_inv_NoDup s : store_inv s -> NoDup (JsMap.keys (expenses s)).
Proof. intros [_ [S _]]. apply sorted_keys_NoDup, S. Qed.

(** X1. In every state the store reaches, the counter is at least 1, the
    keys of the map are distinct and grow along the insertion order, and
    every record is stored under its own id, which is at least 1 and below
    the counter. *)
Theorem reachable_invariant (s : MemStorage) :
  reachable s ->
  1 <= currentId s
  /\ StronglySorted Z.lt (JsMap.keys (expenses s))
  /\ (forall i e, getExpense s i = Some e -> id e = i /\ 1 <= i < currentId s).
Proof.
  intros R. pose proof (reachable_store_inv s R) as [H1 [S F]].
  split; [exact H1|split; [exact S|]].
  intros i e G. apply JsMapOrder.get_some_in in G.
  rewrite Forall_forall in F. apply (F _ G).
Qed.

Lemma reachable_invariant_witness :
  1 <= currentId one_lunch
  /\ StronglySorted Z.lt (JsMap.keys (expenses one_lunch))
  /\ (forall i e, getExpense one_lunch i = Some e ->
      id e = i /\ 1 <= i < currentId one_lunch).
Proof.
  apply (reachable_invariant one_lunch).
  exact (reach_create _ lunch 1700000000000 reach_new).
Defined.

(** ** Reading after writing *)

Lemma getExpense_delete_same s i :
  store_inv s -> getExpense (fst (deleteExpense s i)) i = None.
Proof.
  intros I. pose proof (store_inv_NoDup s I) as D.
  pose proof (JsMapOrder.get_delete_same i (expenses s) D) as H.
  unfold getExpense, deleteExpense.
  destruct (JsMap.delete i (expenses s)); exact H.
Qed.

Lemma getExpense_delete_other s i j :
  i <> j -> getExpense (fst (deleteExpense s i)) j = getExpense s j.
Proof.
  intros N. pose proof (JsMapOrder.get_delete_other i j (expenses s) N) as H.
  unfold getExpense, deleteExpense.
  destruct (JsMap.delete i (expenses s)); exact H.
Qed.

Lemma getExpense_create_other s input now j :
  j <> currentId s ->
  getExpense (fst (createExpense s input now)) j = getExpense s j.
Proof.
  intros N. unfold getExpense; simpl.
  apply JsMapOrder.get_set_other. congruence.
Qed.

(** X2. In every state the store reaches, an expense that was deleted
    cannot be read any more. *)
Theorem delete_then_get (s : MemStorage) (i : Z) :
  reachable s -> getExpense (fst (deleteExpense s i)) i = None.
Proof. intros R. apply getExpense_delete_same, reachable_store_inv, R. Qed.

Lemma delete_then_get_witness :
  getExpense (fst (deleteExpense one_lunch 1)) 1 = None.
Proof.
  apply (delete_then_get one_lunch 1).
  exact (reach_create _ lunch 1700000000000 reach_new).
Defined.

(** X3. [create] and [delete] leave every other expense as it is: after
    [delete(i)] an id other than [i] reads as before, and after [create] an
    id other than the one assigned reads as before. *)
Theorem other_ids_untouched
  (s : MemStorage) (input : InsertExpense) (now : Z) (i j : Z) :
  (i <> j -> getExpense (fst (deleteExpense s i)) j = getExpense s j)
  /\ (j <> id (snd (createExpense s input now)) ->
      getExpense (fst (createExpense s input now)) j = getExpense s j).
Proof.
  split; [apply getExpense_delete_other | apply getExpense_create_other].
Qed.

Lemma other_ids_untouched_witness :
  getExpense (fst (deleteExpense one_lunch 2)) 1 = getExpense one_lunch 1
  /\ getExpense (fst (createExpense one_lunch lunch 1700000000001)) 1
     = getExpense one_lunch 1.
Proof.
  destruct (other_ids_untouched one_lunch lunch 1700000000001 2 1) as [H1 H2].
  split; [apply H1 | apply H2]; discriminate.
Defined.

(** ** [list()] against [get] *)

Lemma in_values_iff (m : JsMap.t Expense) e :
  In e (JsMap.values m) <-> exists k, In (k, e) m.
Proof.
  unfold JsMap.values. rewrite in_map_iff. split.
  - intros [[k v] [E H]]. simpl in E; subst v. exists k; exact H.
  - intros [k H]. exists (k, e). split; [reflexivity | exact H].
Qed.

Lemma in_getExpenses s e :
  In e (getExpenses s) <-> In e (JsMap.values (expenses s)).
Proof.
  unfold getExpenses. split; apply Permutation_in;
    [|symmetry]; apply Array_sort_perm.
Qed.

(** X4. In every state the store reaches, [list()] holds exactly the
    records [get] returns: a record is listed if and only if [get] of its
    id returns it. *)
Theorem listed_iff_stored (s : MemStorage) (e : Expense) :
  reachable s ->
  (In e (getExpenses s) <-> getExpense s (id e) = Some e).
Proof.
  intros R. pose proof (reachable_store_inv s R) as I.
  pose proof (store_inv_NoDup s I) as D. destruct I as [_ [_ F]].
  rewrite in_getExpenses, in_values_iff. split.
  - intros [k H]. rewrite Forall_forall in F.
    destruct (F _ H) as [E _]. simpl in E. subst k.
    apply JsMapOrder.in_get_some; assumption.
  - intros G. exists (id e). apply JsMapOrder.get_some_in, G.
Qed.

Lemma listed_iff_stored_witness :
  In (snd (createExpense MemStorage_new lunch 1700000000000))
     (getExpenses one_lunch)
  <-> getExpense one_lunch
        (id (snd (createExpense MemStorage_new lunch 1700000000000)))
      = Some (snd (createExpense MemStorage_new lunch 1700000000000)).
Proof.
  apply (listed_iff_stored one_lunch).
  exact (reach_create _ lunch 1700000000000 reach_new).
Defined.

(** ** Records created in the same millisecond *)

Lemma insert_listed_before x l :
  StronglySorted listed_before l ->
  Forall (fun y => id x < id y) l ->
  StronglySorted listed_before (insert by_createdAt_desc x l).
Proof.
  induction 1 as [|y l S IH Hall]; intros F; simpl.
  - repeat constructor.
  - inversion F as [|? ? Hy F']; subst.
    unfold by_createdAt_desc at 1.
    destruct (createdAt y - createdAt x <=? 0) eqn:E.
    + apply Z.leb_le in E.
      constructor; [constructor; assumption|].
      constructor; [unfold listed_before; lia|].
      rewrite Forall_forall in *. intros z Hz.
      specialize (Hall z Hz). specialize (F' z Hz).
      unfold listed_before in *. lia.
    + apply Z.leb_gt in E.
      constructor; [apply IH, F'|].
      rewrite (insert_perm by_createdAt_desc x l).
      constructor; [unfold listed_before; lia | exact Hall].
Qed.

Lemma Array_sort_listed_before l :
  StronglySorted (fun a b => id a < id b) l ->
  StronglySorted listed_before (Array_sort by_createdAt_desc l).
Proof.
  induction 1 as [|x l S IH Hall]; simpl; [constructor|].
  apply insert_listed_before; [exact IH|].
  rewrite (Array_sort_perm by_createdAt_desc l). exact Hall.
Qed.

Lemma values_id_sorted (m : JsMap.t Expense) :
  StronglySorted Z.lt (JsMap.keys m) ->
  Forall (fun kv => id (snd kv) = fst kv) m ->
  StronglySorted (fun a b => id a < id b) (JsMap.values m).
Proof.
  induction m as [|[k v] m IH]; simpl; intros S F; [constructor|].
  inversion S as [|? ? S' Hall]; subst.
  inversion F as [|? ? Hk F']; subst. simpl in Hk.
  constructor; [apply IH; assumption|].
  apply Forall_forall. intros e He.
  apply in_map_iff in He as [[k' v'] [E Hin]]. simpl in E; subst v'.
  rewrite Forall_forall in Hall, F'.
  specialize (F' _ Hin). simpl in F'.
  assert (Hlt : k < k').
  { apply Hall. apply in_map_iff. exists (k', e). split; [reflexivity | exact Hin]. }
  lia.
Qed.

(** X5. In every state the store reaches, [list()] puts the later
    [createdAt] first and, among records with the same [createdAt], the one
    created earlier (the smaller id) first: the sort is stable and the map
    is walked in the order of creation. *)
Theorem list_order_with_ties (s : MemStorage) :
  reachable s -> StronglySorted listed_before (getExpenses s).
Proof.
  intros R. destruct (reachable_store_inv s R) as [_ [S F]].
  apply Array_sort_listed_before, values_id_sorted; [exact S|].
  eapply Forall_impl; [|exact F]. intros kv H; apply H.
Qed.

Lemma list_order_with_ties_witness :
  StronglySorted listed_before
    (getExpenses (fst (createExpense one_lunch lunch 1700000000000))).
Proof.
  apply (list_order_with_ties (fst (createExpense one_lunch lunch 1700000000000))).
  exact (reach_create _ lunch 1700000000000
           (reach_create _ lunch 1700000000000 reach_new)).
Defined.

(** Two records of the same millisecond are listed oldest first. *)
Example same_millisecond_order :
  map id (getExpenses (fst (run [Create lunch 5; Create lunch 5; Create lunch 9]
                              MemStorage_new)))
  = [3; 1; 2].
Proof. vm_compute; reflexivity. Qed.

(** ** A record over the life of the store *)

Lemma run_create_fst input now ops s :
  fst (run (Create input now :: ops) s)
  = fst (run ops (fst (createExpense s input now))).
Proof.
  simpl. destruct (run ops _) as [s2 ids]. reflexivity.
Qed.

Lemma run_record_fixed i ops : forall s,
  store_inv s -> i < currentId s ->
  getExpense (fst (run ops s)) i = getExpense s i
  \/ getExpense (fst (run ops s)) i = None.
Proof.
  induction ops as [|[input now|j] ops IH]; intros s I L.
  - left; reflexivity.
  - rewrite run_create_fst.
    rewrite <- (getExpense_create_other s input now i) by lia.
    apply IH; [apply store_inv_create, I | simpl; lia].
  - change (run (Delete j :: ops) s) with (run ops (fst (deleteExpense s j))).
    assert (L' : i < currentId (fst (deleteExpense s j)))
      by (rewrite currentId_deleteExpense; exact L).
    destruct (IH _ (store_inv_delete s j I) L') as [H|H]; [|right; exact H].
    destruct (Z.eq_dec j i) as [->|N].
    + right. rewrite H. apply getExpense_delete_same, I.
    + left. rewrite H. apply getExpense_delete_other, N.
Qed.

(** X6. Whatever calls follow, an id the store has handed out either still
    reads as the very record it read as before, or reads as nothing: a
    stored record is never changed, and a deleted id never comes back. *)
Theorem record_never_changes (s : MemStorage) (i : Z) (ops : list Op) :
  reachable s -> i < currentId s ->
  getExpense (fst (run ops s)) i = getExpense s i
  \/ getExpense (fst (run ops s)) i = None.
Proof.
  intros R L. apply run_record_fixed; [apply reachable_store_inv, R | exact L].
Qed.

Lemma record_never_changes_witness :
  getExpense (fst (run [Create lunch 7; Delete 2] one_lunch)) 1
  = getExpense one_lunch 1
  \/ getExpense (fst (run [Create lunch 7; Delete 2] one_lunch)) 1 = None.
Proof.
  apply (record_never_changes one_lunch 1 [Create lunch 7; Delete 2]).
  - exact (reach_create _ lunch 1700000000000 reach_new).
  - reflexivity.
Defined.

(** ** What the schema lets in *)

Lemma parse_amount_inl v x :
  parse_amount v = inl x <-> v = VNumber x /\ Number_positive x = true.
Proof.
  unfold parse_amount. split.
  - destruct v as [| | |y| | |]; try discriminate.
    destruct y as [|neg|neg m e]; try discriminate;
      match goal with |- context [if ?b then _ else _] => destruct b eqn:P end;
      try discriminate; intros H; injection H as <-; auto.
  - intros [-> P]. destruct x; try discriminate; rewrite P; reflexivity.
Qed.

Lemma parse_description_inl v d :
  parse_description v = inl d
  <-> v = VString d /\ 1 <= str_length d <= 100.
Proof.
  unfold parse_description. split.
  - destruct v as [| | | |t| |]; try discriminate.
    destruct (str_length t <? 1) eqn:L1; [discriminate|].
    destruct (100 <? str_length t) eqn:L2; [discriminate|].
    simpl. intros H; injection H as <-.
    apply Z.ltb_ge in L1, L2. split; [reflexivity | lia].
  - intros [-> [L1 L2]].
    apply Z.ltb_ge in L1. apply Z.ltb_ge in L2. rewrite L1, L2. reflexivity.
Qed.

Lemma parse_category_inl v c :
  parse_category v = inl c <-> v = VString c /\ In c categories.
Proof.
  unfold parse_category. split.
  - destruct v as [| | | |t| |]; try discriminate.
    destruct (existsb (str_eqb t) categories) eqn:E; [|discriminate].
    intros H; injection H as <-. split; [reflexivity|].
    apply existsb_str_eqb, E.
  - intros [-> H]. apply existsb_str_eqb in H. rewrite H. reflexivity.
Qed.

(** X7. The schema accepts a body exactly when it is an object whose
    [amount] is a positive number, whose [description] is a string of 1 to
    100 code units and whose [category] is a string of the enum; what it
    returns holds these three values and nothing of the other keys. *)
Theorem schema_accepts_iff (req_body : value) (i : InsertExpense) :
  insertExpenseSchema_parse req_body = inl i
  <-> exists fields,
        req_body = VObject fields
        /\ get_field (lit "amount") fields = VNumber (ins_amount i)
        /\ Number_positive (ins_amount i) = true
        /\ get_field (lit "description") fields = VString (ins_description i)
        /\ 1 <= str_length (ins_description i) <= 100
        /\ get_field (lit "category") fields = VString (ins_category i)
        /\ In (ins_category i) categories.
Proof.
  split.
  - destruct req_body as [| | | | | |fields]; try discriminate.
    unfold insertExpenseSchema_parse.
    destruct (parse_amount _) as [x|] eqn:Pa;
      destruct (parse_description _) as [d|] eqn:Pd;
      destruct (parse_category _) as [c|] eqn:Pc; try discriminate.
    intros H; injection H as <-.
    cbn [ins_amount ins_description ins_category].
    apply parse_amount_inl in Pa as [Ha Hx].
    apply parse_description_inl in Pd as [Hd Hl].
    apply parse_category_inl in Pc as [Hc Hk].
    exists fields. split; [reflexivity|].
    repeat (split; [assumption|]). assumption.
  - intros [fields [-> [Ha [Hx [Hd [Hl [Hc Hk]]]]]]].
    unfold insertExpenseSchema_parse.
    rewrite (proj2 (parse_amount_inl _ _) (conj Ha Hx)).
    rewrite (proj2 (parse_description_inl _ _) (conj Hd Hl)).
    rewrite (proj2 (parse_category_inl _ _) (conj Hc Hk)).
    destruct i; reflexivity.
Qed.

Lemma schema_accepts_iff_witness :
  exists fields,
    lunch_body = VObject fields
    /\ get_field (lit "amount") fields = VNumber (ins_amount lunch)
    /\ Number_positive (ins_amount lunch) = true
    /\ get_field (lit "description") fields = VString (ins_description lunch)
    /\ 1 <= str_length (ins_description lunch) <= 100
    /\ get_field (lit "category") fields = VString (ins_category lunch)
    /\ In (ins_category lunch) categories.
Proof.
  apply (proj1 (schema_accepts_iff lunch_body lunch)). reflexivity.
Defined.

(** ** The issues of a refused body *)

Lemma parse_object_errors fields errors :
  insertExpenseSchema_parse (VObject fields) = inr errors ->
  errors
  = issues_of (parse_amount (get_field (lit "amount") fields))
    ++ issues_of (parse_description (get_field (lit "description") fields))
    ++ issues_of (parse_category (get_field (lit "category") fields)).
Proof.
  unfold insertExpenseSchema_parse.
  destruct (parse_amount _); destruct (parse_description _);
    destruct (parse_category _); intros H; try discriminate;
    injection H as <-; reflexivity.
Qed.

Lemma parse_amount_paths v :
  map path (issues_of (parse_amount v))
  = if amount_ok v then [] else [[lit "amount"]].
Proof.
  unfold parse_amount, amount_ok.
  destruct v as [| | |x| | |]; try reflexivity.
  destruct x as [|neg|neg m e]; try reflexivity;
    match goal with |- context [Number_positive ?y] =>
      destruct (Number_positive y) end; reflexivity.
Qed.

Lemma parse_description_paths v :
  map path (issues_of (parse_description v))
  = if description_ok v then [] else [[lit "description"]].
Proof.
  unfold parse_description, description_ok.
  destruct v as [| | | |d| |]; try reflexivity.
  destruct (str_length d <? 1) eqn:L1; destruct (100 <? str_length d) eqn:L2;
    destruct (1 <=? str_length d) eqn:M1;
    destruct (str_length d <=? 100) eqn:M2; try reflexivity; exfalso;
    repeat match goal with
           | H : (_ <? _) = true |- _ => apply Z.ltb_lt in H
           | H : (_ <? _) = false |- _ => apply Z.ltb_ge in H
           | H : (_ <=? _) = true |- _ => apply Z.leb_le in H
           | H : (_ <=? _) = false |- _ => apply Z.leb_gt in H
           end; lia.
Qed.

Lemma parse_category_paths v :
  map path (issues_of (parse_category v))
  = if category_ok v then [] else [[lit "category"]].
Proof.
  unfold parse_category, category_ok.
  destruct v as [| | | |c| |]; try reflexivity.
  destruct (existsb (str_eqb c) categories); reflexivity.
Qed.

(** X8. When the schema refuses an object, every key that fails its
    condition reports once and a key that meets it does not report: the
    paths of the issues are [amount] if the amount is not a positive number,
    then [description] if the description is not a string of 1 to 100 code
    units, then [category] if the category is not a string of the enum; at
    least one key fails. *)
Theorem issues_one_per_field
  (fields : list (jsstring * value)) (errors : list ZodIssue) :
  insertExpenseSchema_parse (VObject fields) = inr errors ->
  map path errors
  = (if amount_ok (get_field (lit "amount") fields)
     then [] else [[lit "amount"]])
    ++ (if description_ok (get_field (lit "description") fields)
        then [] else [[lit "description"]])
    ++ (if category_ok (get_field (lit "category") fields)
        then [] else [[lit "category"]])
  /\ amount_ok (get_field (lit "amount") fields)
     && description_ok (get_field (lit "description") fields)
     && category_ok (get_field (lit "category") fields) = false.
Proof.
  intros H. pose proof (parse_object_issues fields errors H) as [N _].
  rewrite (parse_object_errors fields errors H) in *.
  rewrite !map_app, parse_amount_paths, parse_description_paths,
    parse_category_paths.
  split; [reflexivity|].
  destruct (amount_ok _) eqn:A; [|reflexivity].
  destruct (description_ok _) eqn:D; [|reflexivity].
  destruct (category_ok _) eqn:C; [|reflexivity].
  exfalso. apply N.
  apply map_eq_nil with (f := path).
  rewrite !map_app, parse_amount_paths, parse_description_paths,
    parse_category_paths, A, D, C. reflexivity.
Qed.

Lemma issues_one_per_field_witness :
  map path [mkIssue too_small [lit "amount"] (Some (lit "Amount must be positive"));
            mkIssue invalid_enum_value [lit "category"] None]
  = (if amount_ok (get_field (lit "amount") free_lunch_fields)
     then [] else [[lit "amount"]])
    ++ (if description_ok (get_field (lit "description") free_lunch_fields)
        then [] else [[lit "description"]])
    ++ (if category_ok (get_field (lit "category") free_lunch_fields)
        then [] else [[lit "category"]])
  /\ amount_ok (get_field (lit "amount") free_lunch_fields)
     && description_ok (get_field (lit "description") free_lunch_fields)
     && category_ok (get_field (lit "category") free_lunch_fields) = false.
Proof.
  apply (issues_one_per_field free_lunch_fields). reflexivity.
Defined.

(** X9. The messages of the schema go with their conditions: an amount that
    is a number but not above zero reports [Amount must be positive], an
    empty description [Description is required], a description of more
    than 100 code units [Description too long], an absent category
    [Category is required]; each time the answer is 400 and the store is
    untouched. *)
Theorem schema_messages
  (s : MemStorage) (fields : list (jsstring * value)) (now : Z) (e : ZodIssue) :
  (exists x, get_field (lit "amount") fields = VNumber x /\ x <> NaN
             /\ Number_positive x = false
             /\ e = mkIssue too_small [lit "amount"]
                      (Some (lit "Amount must be positive")))
  \/ (get_field (lit "description") fields = VString []
      /\ e = mkIssue too_small [lit "description"]
               (Some (lit "Description is required")))
  \/ (exists d, get_field (lit "description") fields = VString d
                /\ 100 < str_length d
                /\ e = mkIssue too_big [lit "description"]
                         (Some (lit "Description too long")))
  \/ (get_field (lit "category") fields = VUndefined
      /\ e = mkIssue invalid_type [lit "category"]
               (Some (lit "Category is required"))) ->
  exists errors,
    post_expenses s (VObject fields) now
    = (s, mkResponse 400 (ValidationFailure (lit "Validation error") errors))
    /\ In e errors.
Proof.
  intros H.
  assert (P : exists errors,
             insertExpenseSchema_parse (VObject fields) = inr errors
             /\ In e errors).
  { assert (Q : In e (issues_of (parse_amount (get_field (lit "amount") fields))
                      ++ issues_of (parse_description (get_field (lit "description") fields))
                      ++ issues_of (parse_category (get_field (lit "category") fields)))
                /\ (In e (issues_of (parse_amount (get_field (lit "amount") fields)))
                    \/ In e (issues_of (parse_description (get_field (lit "description") fields)))
                    \/ In e (issues_of (parse_category (get_field (lit "category") fields))))).
    { rewrite !in_app_iff.
      assert (forall A : Prop, A -> A /\ A) as dup by tauto. apply dup.
      destruct H as [[x [G [Nx [Px ->]]]]|[[G ->]|[[d [G [L ->]]]|[G ->]]]];
        rewrite G.
      - left. unfold parse_amount.
        destruct x; [congruence| |]; rewrite Px; left; reflexivity.
      - right; left. left; reflexivity.
      - right; left. unfold parse_description.
        assert (L1 : (str_length d <? 1) = false) by (apply Z.ltb_ge; lia).
        apply Z.ltb_lt in L. rewrite L1, L. left; reflexivity.
      - right; right. left; reflexivity. }
    destruct Q as [Q1 Q2].
    unfold insertExpenseSchema_parse.
    destruct (parse_amount _) as [x|la];
      destruct (parse_description _) as [d|ld];
      destruct (parse_category _) as [c|lc];
      try (eexists; split; [reflexivity | exact Q1]).
    simpl in Q2. tauto. }
  destruct P as [errors [E Hin]]. exists errors.
  unfold post_expenses. rewrite E. split; [reflexivity | exact Hin].
Qed.

Lemma schema_messages_witness :
  exists errors,
    post_expenses one_lunch (VObject free_lunch_fields) 1700000000002
    = (one_lunch,
       mkResponse 400 (ValidationFailure (lit "Validation error") errors))
    /\ In (mkIssue too_small [lit "amount"] (Some (lit "Amount must be positive")))
          errors.
Proof.
  apply (schema_messages one_lunch free_lunch_fields 1700000000002).
  left. exists (Finite false 0 0).
  repeat split; discriminate.
Defined.

(** ** The store behind the handlers *)

Lemma valid_payload_well_formed s i now :
  valid_payload i = true -> well_formed (snd (createExpense s i now)).
Proof.
  unfold valid_payload, well_formed, createExpense.
  cbn [snd category description amount].
  rewrite !andb_true_iff, !Z.leb_le, existsb_str_eqb.
  intros [[[P L1] L2] K].
  split; [exact K|split; [lia|]].
  exists (ins_amount i). split; [exact P | reflexivity].
Qed.

Lemma values_set_Forall (P : Expense -> Prop) k v (m : JsMap.t Expense) :
  Forall P (JsMap.values m) -> P v -> Forall P (JsMap.values (JsMap.set k v m)).
Proof.
  intros F Pv. induction m as [|[k' v'] m IH]; simpl.
  - repeat constructor; exact Pv.
  - simpl in F. inversion F as [|? ? Pv' F']; subst.
    destruct (k' =? k); simpl; constructor; auto.
Qed.

Lemma values_delete_Forall (P : Expense -> Prop) k (m : JsMap.t Expense) :
  Forall P (JsMap.values m) -> Forall P (JsMap.values (fst (JsMap.delete k m))).
Proof.
  intros F. rewrite Forall_forall in *. intros e He.
  apply in_values_iff in He as [j Hj].
  apply F, in_values_iff. exists j.
  apply (JsMapOrder.delete_incl k m), Hj.
Qed.

Lemma post_expenses_fst s req_body now :
  fst (post_expenses s req_body now) = s
  \/ exists i, insertExpenseSchema_parse req_body = inl i
               /\ fst (post_expenses s req_body now)
                  = fst (createExpense s i now).
Proof.
  unfold post_expenses.
  destruct (insertExpenseSchema_parse req_body) as [i|errors];
    [right; exists i; split; reflexivity | left; reflexivity].
Qed.

Lemma delete_expense_fst s param_id :
  fst (delete_expense s param_id) = s
  \/ exists i, fst (delete_expense s param_id) = fst (deleteExpense s i).
Proof.
  unfold delete_expense. destruct (parseInt param_id) as [i|]; [|left; reflexivity].
  right. exists i. destruct (deleteExpense s i) as [s' b].
  destruct b; reflexivity.
Qed.


Lemma served_values_well_formed s :
  served s -> Forall well_formed (JsMap.values (expenses s)).
Proof.
  induction 1 as [|s req_body now _ IH|s param_id _ IH].
  - constructor.
  - destruct (post_expenses_fst s req_body now) as [->|[i [P ->]]];
      [exact IH|].
    simpl. apply values_set_Forall; [exact IH|].
    apply (valid_payload_well_formed s i now), (parse_valid_payload _ _ P).
  - destruct (delete_expense_fst s param_id) as [->|[i ->]]; [exact IH|].
    pose proof (values_delete_Forall well_formed i (expenses s) IH) as H.
    unfold deleteExpense. destruct (JsMap.delete i (expenses s)); exact H.
Qed.






(** ** One request after another *)

Lemma delete_expense_some s param_id i :
  parseInt param_id = Some i ->
  delete_expense s param_id
  = (fst (deleteExpense s i),
     if snd (deleteExpense s i)
     then mkResponse 200 (Message (lit "Expense deleted successfully"))
     else mkResponse 404 (Message (lit "Expense not found"))).
Proof.
  intros P. unfold delete_expense. rewrite P.
  destruct (deleteExpense s i) as [s' b]. destruct b; reflexivity.
Qed.

(** X12. After a DELETE that answered 200, the same id is gone: a GET of it
    answers 404, and a second DELETE answers 404 and changes nothing. *)
Theorem delete_is_final (s : MemStorage) (param_id : jsstring) :
  reachable s ->
  status (snd (delete_expense s param_id)) = 200 ->
  get_expense (fst (delete_expense s param_id)) param_id
  = mkResponse 404 (Message (lit "Expense not found"))
  /\ delete_expense (fst (delete_expense s param_id)) param_id
     = (fst (delete_expense s param_id),
        mkResponse 404 (Message (lit "Expense not found"))).
Proof.
  intros R. pose proof (reachable_store_inv s R) as I.
  destruct (parseInt param_id) as [i|] eqn:P.
  - rewrite (delete_expense_some s param_id i P). cbn [fst snd status].
    destruct (snd (deleteExpense s i)); [|discriminate]. intros _.
    pose proof (getExpense_delete_same s i I) as G. split.
    + unfold get_expense. rewrite P, G. reflexivity.
    + rewrite (delete_expense_some _ param_id i P).
      rewrite (deleteExpense_absent _ i G). reflexivity.
  - unfold delete_expense at 1. rewrite P. discriminate.
Qed.

Lemma delete_is_final_witness :
  get_expense (fst (delete_expense one_lunch (lit "1"))) (lit "1")
  = mkResponse 404 (Message (lit "Expense not found"))
  /\ delete_expense (fst (delete_expense one_lunch (lit "1"))) (lit "1")
     = (fst (delete_expense one_lunch (lit "1")),
        mkResponse 404 (Message (lit "Expense not found"))).
Proof.
  apply (delete_is_final one_lunch (lit "1")).
  - exact (reach_create _ lunch 1700000000000 reach_new).
  - reflexivity.
Defined.

Lemma values_set_In k v (m : JsMap.t Expense) :
  In v (JsMap.values (JsMap.set k v m)).
Proof.
  induction m as [|[k' v'] m IH]; simpl; [left; reflexivity|].
  destruct (k' =? k); simpl; [left; reflexivity | right; exact IH].
Qed.

(** X13. After a POST that answered 201 with a record, a GET whose id
    parameter reads as the id of the record answers 200 with that record,
    and the record is in the answer of the GET of all expenses. *)
Theorem post_then_get
  (s : MemStorage) (req_body : value) (now : Z) (e : Expense)
  (param_id : jsstring) :
  snd (post_expenses s req_body now) = mkResponse 201 (OneExpense e) ->
  parseInt param_id = Some (id e) ->
  get_expense (fst (post_expenses s req_body now)) param_id
  = mkResponse 200 (OneExpense e)
  /\ exists l,
       get_expenses (fst (post_expenses s req_body now)) QUndefined
       = mkResponse 200 (ExpenseList l)
       /\ In e l.
Proof.
  unfold post_expenses.
  destruct (insertExpenseSchema_parse req_body) as [i|errors]; [|discriminate].
  change (let '(s', expense) := createExpense s i now in
          (s', mkResponse 201 (OneExpense expense)))
    with (fst (createExpense s i now),
          mkResponse 201 (OneExpense (snd (createExpense s i now)))).
  cbn [fst snd]. intros H P. injection H as <-.
  split.
  - unfold get_expense. rewrite P, getExpense_createExpense. reflexivity.
  - eexists. split; [reflexivity|].
    apply in_getExpenses. simpl. apply values_set_In.
Qed.

Lemma post_then_get_witness :
  get_expense (fst (post_expenses one_lunch lunch_body 5)) (lit "2")
  = mkResponse 200
      (OneExpense (mkExpense 2 (lit "250.5") (lit "Lunch") (lit "food") 5))
  /\ exists l,
       get_expenses (fst (post_expenses one_lunch lunch_body 5)) QUndefined
       = mkResponse 200 (ExpenseList l)
       /\ In (mkExpense 2 (lit "250.5") (lit "Lunch") (lit "food") 5) l.
Proof.
  apply (post_then_get one_lunch lunch_body 5
           (mkExpense 2 (lit "250.5") (lit "Lunch") (lit "food") 5) (lit "2"));
    vm_compute; reflexivity.
Defined.

(** ** The counter *)

(** X14. The counter counts the [create] calls: after any calls it stands
    at its old value plus the number of [create] calls among them, deletes
    changing nothing. *)
Theorem counter_counts_creates (ops : list Op) (s : MemStorage) :
  currentId (fst (run ops s)) = currentId s + Z.of_nat (creates ops).
Proof.
  revert s. induction ops as [|[input now|i] ops IH]; intros s.
  - simpl. unfold creates; simpl. lia.
  - rewrite run_create_fst, IH. unfold creates; simpl. lia.
  - change (run (Delete i :: ops) s) with (run ops (fst (deleteExpense s i))).
    rewrite IH, currentId_deleteExpense. reflexivity.
Qed.

(** ** The filters together *)

Lemma category_counts (l : list Expense) :
  Forall (fun e => In (category e) categories) l ->
  list_sum (map (fun c => List.length (filter (in_category c) l)) categories)
  = List.length l.
Proof.
  induction 1 as [|e l He F IH]; [reflexivity|].
  cbn [List.length]. rewrite <- IH. clear IH F.
  unfold in_category. simpl in He. simpl.
  repeat (destruct He as [<-|He]; [simpl; lia|]). contradiction.
Qed.

(** X15. While only the handlers touch the store, the eight category
    filters split the list: the lengths of [listByCategory(c)] over the
    categories of the enum add up to the length of [list()]. *)
Theorem categories_partition_list (s : MemStorage) :
  served s ->
  list_sum (map (fun c => List.length (getExpensesByCategory s c)) categories)
  = List.length (getExpenses s).
Proof.
  intros H. unfold getExpensesByCategory, getExpenses.
  rewrite Array_sort_length.
  rewrite <- (category_counts (JsMap.values (expenses s))).
  - apply f_equal, map_ext. intros c. apply Array_sort_length.
  - eapply Forall_impl; [|exact (served_values_well_formed s H)].
    intros e W; apply W.
Qed.

Lemma categories_partition_list_witness :
  list_sum
    (map (fun c =>
            List.length
              (getExpensesByCategory
                 (fst (post_expenses MemStorage_new lunch_body 1700000000000)) c))
       categories)
  = List.length
      (getExpenses (fst (post_expenses MemStorage_new lunch_body 1700000000000))).
Proof.
  apply (categories_partition_list
           (fst (post_expenses MemStorage_new lunch_body 1700000000000))).
  exact (served_post _ lunch_body 1700000000000 served_new).
Defined.
